(** * django_opentracing.tracing: a shallow embedding and its properties

    The module under study is [django_opentracing/tracing.py]: the class
    [DjangoTracing] (constructor, the [tracer] property, [get_span], the
    [trace] decorator, [_apply_tracing], [_finish_tracing],
    [_call_start_span_cb]) and the function [initialize_global_tracer].

    Layout of the development:
    - [Py]        the fragment of Python the module relies on: exceptions,
                  results, string methods;
    - [OT]        the OpenTracing objects the module talks to (spans, scopes,
                  tracers) seen from the caller's side;
    - [Tracing]   the embedding of [tracing.py] itself;
    - [RefTracer] a small concrete tracer used to run the embedding;
    - the properties. *)

From Stdlib Require Import ZArith Ascii String.
From stdpp Require Import base option list strings pretty gmap.

Local Open Scope string_scope.

(* ===================================================================== *)
(** ** Python fragment *)
(* ===================================================================== *)

Module Py.

(** Classes of the objects that can be raised.  [SystemExit],
    [KeyboardInterrupt] and [GeneratorExit] derive from [BaseException] but
    not from [Exception]; every other class here derives from [Exception].
    [Unprintable name raised] is an [Exception] subclass called [name] whose
    [__str__] raises an exception of class [raised]. *)
Inductive exc_class :=
| InvalidCarrierException
| SpanContextCorruptedException
| ValueError
| AttributeError
| TypeError
| IndexError
| KeyError
| OtherException (name : string)
| SystemExit
| KeyboardInterrupt
| GeneratorExit
| Unprintable (name : string) (raised : exc_class).

(** A raised object: its class and a text.  The text is what [str(exc)]
    returns; for an [Unprintable] object it is the text of the exception that
    [str(exc)] raises instead. *)
Record exn := Exc { exc_type : exc_class; exc_str : string }.

(** [isinstance(exc, Exception)] *)
Definition is_Exception (e : exn) : bool :=
  match exc_type e with
  | SystemExit | KeyboardInterrupt | GeneratorExit => false
  | _ => true
  end.

(** Outcome of a Python call: a value or a raised exception. *)
Inductive res (A : Type) :=
| Ok (a : A)
| Raise (e : exn).
Arguments Ok {A} a.
Arguments Raise {A} e.

Definition is_raise {A} (r : res A) : bool :=
  match r with Ok _ => false | Raise _ => true end.

(** [str(exc)] *)
Definition str_of (exc : exn) : res string :=
  match exc_type exc with
  | Unprintable _ raised => Raise (Exc raised (exc_str exc))
  | _ => Ok (exc_str exc)
  end.

(** [str.lower()] on header names.  Header names are ASCII, so only the
    letters A..Z are touched. *)
Definition lower_char (c : ascii) : ascii :=
  let n := N_of_ascii c in
  if ((65 <=? n) && (n <=? 90))%N then ascii_of_N (n + 32) else c.

Fixpoint str_map (f : ascii -> ascii) (s : string) : string :=
  match s with
  | EmptyString => EmptyString
  | String c s' => String (f c) (str_map f s')
  end.

Definition lower (s : string) : string := str_map lower_char s.

(** [s.replace(old, new)] for one-character [old] and [new]. *)
Definition replace (old new : ascii) (s : string) : string :=
  str_map (fun c => if Ascii.eqb c old then new else c) s.

(** [s.startswith(p)] *)
Fixpoint startswith (p s : string) : bool :=
  match p, s with
  | EmptyString, _ => true
  | String a p', String b s' => Ascii.eqb a b && startswith p' s'
  | String _ _, EmptyString => false
  end.

(** The slice [s[n:]] *)
Fixpoint slice_from (n : nat) (s : string) : string :=
  match n, s with
  | O, _ => s
  | S n', String _ s' => slice_from n' s'
  | S _, EmptyString => EmptyString
  end.

End Py.
Import Py.

(* ===================================================================== *)
(** ** OpenTracing objects, as the module uses them *)
(* ===================================================================== *)

Module OT.

(** Tag names of [opentracing.ext.tags]. *)
Definition COMPONENT : string := "component".
Definition SPAN_KIND : string := "span.kind".
Definition SPAN_KIND_RPC_SERVER : string := "server".
Definition HTTP_METHOD : string := "http.method".
Definition HTTP_URL : string := "http.url".
Definition HTTP_STATUS_CODE : string := "http.status_code".
Definition ERROR : string := "error".

(** A span context: the two identifiers that travel in the carrier. *)
Record SpanContext := mkSpanContext { trace_id : string; ctx_span_id : string }.

(** Spans and scopes are objects with identity; [span] is the attribute
    [scope.span]. *)
Record Span := mkSpan { span_id : nat }.
Record Scope := mkScope { scope_id : nat; span : Span }.

(** Values given to [set_tag] and [log_kv]. *)
Inductive tagval :=
| VStr (s : string)
| VBool (b : bool)
| VInt (z : Z).

Inductive logval :=
| LStr (s : string)
| LExc (e : exn).

(** The calls the module makes on the tracer, on spans and scopes and on the
    start-span callback.  The embedding records them in order of issue: the
    record of calls is what the outside world has seen of the module. *)
Inductive Call :=
| CExtract (carrier : gmap string string)
| CStartActiveSpan (operation_name : string) (child_of : option SpanContext)
| CInject (what : Scope) (carrier : gmap string string)
| CSetTag (sp : Span) (key : string) (value : tagval)
| CLogKv (sp : Span) (kv : list (string * logval))
| CClose (sc : Scope)
| CStartSpanCb (sp : Span) (request_key : nat).

(** A tracer object.  The tracer is not part of the module, so it is taken as
    it answers: each method maps the calls seen so far and its arguments to a
    returned value or a raised exception.  [inject] mutates the carrier it is
    given; here it returns the carrier after the mutation. *)
Record Tracer := mkTracer {
  extract : list Call -> gmap string string -> res SpanContext;
  start_active_span : list Call -> string -> option SpanContext -> res Scope;
  inject : list Call -> Scope -> gmap string string -> res (gmap string string)
}.

(** Methods of the span and scope objects handed out by tracers:
    [span.set_tag], [span.log_kv], [scope.close]. *)
Record SpanOps := mkSpanOps {
  set_tag : list Call -> Span -> string -> tagval -> res unit;
  log_kv : list Call -> Span -> list (string * logval) -> res unit;
  close : list Call -> Scope -> res unit
}.

End OT.
Import OT.

(* ===================================================================== *)
(** ** The module [django_opentracing.tracing] *)
(* ===================================================================== *)

Module Tracing.

(** What the module reads of a Django request.  [request_key] is the identity
    of the request object, which is what [_current_scopes] hashes on; [META]
    lists the items of [request.META] in iteration order; [request_attrs]
    maps the attribute names the request exposes to [str(getattr(...))]. *)
Record Request := mkRequest {
  request_key : nat;
  META : list (string * string);
  method : string;
  get_full_path : string;
  request_attrs : list (string * string)
}.

(** What a view function returns when it does not return [None]: a response
    object, of which the module reads [status_code] only.  Results that have
    no such attribute are not covered. *)
Record Response := mkResponse { status_code : Z }.

(** A value passed as [start_span_cb]: something callable with
    [(span, request)], or something that is not callable. *)
Inductive pyobj :=
| Callable (f : list Call -> Span -> Request -> res unit)
| NotCallable.

Definition callable (o : pyobj) : bool :=
  match o with Callable _ => true | NotCallable => false end.

(** The fields of a [DjangoTracing] instance. *)
Record DjangoTracing := mkDjangoTracing {
  _tracer_implementation : option Tracer;
  _start_span_cb : option pyobj;
  _current_scopes : gmap nat (list Scope);
  _trace_all : bool
}.

(** Module-level state: [opentracing.tracer] and the function attribute
    [initialize_global_tracer.complete]. *)
Record Globals := mkGlobals {
  opentracing_tracer : Tracer;
  complete : bool
}.

(** Everything a method call can read or change. *)
Record State := mkState {
  self : DjangoTracing;
  globals : Globals;
  span_ops : SpanOps;
  calls : list Call;
  logged : list string
}.

Definition with_scopes (m : gmap nat (list Scope)) (st : State) : State :=
  {| self := {| _tracer_implementation := _tracer_implementation (self st);
                _start_span_cb := _start_span_cb (self st);
                _current_scopes := m;
                _trace_all := _trace_all (self st) |};
     globals := globals st; span_ops := span_ops st;
     calls := calls st; logged := logged st |}.

Definition with_call (c : Call) (st : State) : State :=
  {| self := self st; globals := globals st; span_ops := span_ops st;
     calls := calls st ++ [c]; logged := logged st |}.

Definition with_logged (msg : string) (st : State) : State :=
  {| self := self st; globals := globals st; span_ops := span_ops st;
     calls := calls st; logged := logged st ++ [msg] |}.

(** *** Statements: state passing with exceptions *)

Definition M (A : Type) : Type := State -> res A * State.

Definition ret {A} (a : A) : M A := fun st => (Ok a, st).
Definition raise {A} (e : exn) : M A := fun st => (Raise e, st).
Definition bind {A B} (c : M A) (k : A -> M B) : M B :=
  fun st => match c st with
            | (Ok a, st') => k a st'
            | (Raise e, st') => (Raise e, st')
            end.

Declare Scope py_scope.
Delimit Scope py_scope with py.
Notation "x <- c ;; k" := (bind c (fun x => k))
  (at level 100, c at next level, k at level 200, right associativity)
  : py_scope.
Notation "c ;; k" := (bind c (fun _ => k))
  (at level 100, k at level 200, right associativity) : py_scope.
Local Open Scope py_scope.

(** [try: body  except <classes> as exc: handler exc].  Effects of [body]
    up to the raise are kept. *)
Definition try_except {A} (body : M A) (catches : exn -> bool)
    (handler : exn -> M A) : M A :=
  fun st => match body st with
            | (Ok a, st') => (Ok a, st')
            | (Raise e, st') =>
                if catches e then handler e st' else (Raise e, st')
            end.

(** [except Exception]: the clause takes the instances of [Exception] and
    lets every other raised object through. *)
Definition Exception (e : exn) : bool := is_Exception e.

(** [except (opentracing.InvalidCarrierException,
             opentracing.SpanContextCorruptedException)] *)
Definition carrier_errors (e : exn) : bool :=
  match exc_type e with
  | InvalidCarrierException | SpanContextCorruptedException => true
  | _ => false
  end.

(** [for x in xs: body x] *)
Fixpoint for_each {A} (xs : list A) (body : A -> M unit) : M unit :=
  match xs with
  | [] => ret tt
  | x :: xs' => body x ;; for_each xs' body
  end.

(** [logging.error(msg)] *)
Definition logging_error (msg : string) : M unit :=
  fun st => (Ok tt, with_logged msg st).

(** [str(exc)] as a statement: it may raise. *)
Definition str (exc : exn) : M string := fun st => (str_of exc, st).

(** *** class DjangoTracing *)

Definition __init__ (tracer : option Tracer) (start_span_cb : option pyobj)
    : res DjangoTracing :=
  if match start_span_cb with
     | Some cb => negb (callable cb)
     | None => false
     end
  then Raise (Exc ValueError "start_span_cb is not callable")
  else Ok {| _tracer_implementation := tracer;
             _start_span_cb := start_span_cb;
             _current_scopes := ∅;
             _trace_all := false |}.

Definition _get_tracer_impl (this : DjangoTracing) : option Tracer :=
  _tracer_implementation this.

(** The property [tracer]: the configured implementation, else the global
    [opentracing.tracer].  The source tests the implementation for truth; a
    tracer object is true, so the test is that of [None]. *)
Definition tracer (st : State) : Tracer :=
  match _tracer_implementation (self st) with
  | Some t => t
  | None => opentracing_tracer (globals st)
  end.

(** [get_span(request)] *)
Definition get_span (this : DjangoTracing) (request : Request) : option Span :=
  match _current_scopes this !! request_key request with
  | Some (sc :: _) => Some (span sc)
  | _ => None
  end.

(** Calls on the tracer and on span and scope objects: the call is recorded
    and answered from the calls made before it. *)
Definition tracer_extract (headers : gmap string string) : M SpanContext :=
  fun st => (extract (tracer st) (calls st) headers,
             with_call (CExtract headers) st).

Definition tracer_start_active_span (operation_name : string)
    (child_of : option SpanContext) : M Scope :=
  fun st => (start_active_span (tracer st) (calls st) operation_name child_of,
             with_call (CStartActiveSpan operation_name child_of) st).

Definition tracer_inject (what : Scope) (headers : gmap string string)
    : M (gmap string string) :=
  fun st => (inject (tracer st) (calls st) what headers,
             with_call (CInject what headers) st).

Definition span_set_tag (sp : Span) (key : string) (value : tagval) : M unit :=
  fun st => (set_tag (span_ops st) (calls st) sp key value,
             with_call (CSetTag sp key value) st).

Definition span_log_kv (sp : Span) (kv : list (string * logval)) : M unit :=
  fun st => (log_kv (span_ops st) (calls st) sp kv,
             with_call (CLogKv sp kv) st).

Definition scope_close (sc : Scope) : M unit :=
  fun st => (close (span_ops st) (calls st) sc, with_call (CClose sc) st).

(** [_call_start_span_cb(span, request)] *)
Definition _call_start_span_cb (sp : Span) (request : Request) : M unit :=
  fun st =>
    match _start_span_cb (self st) with
    | None => ret tt st
    | Some cb =>
        try_except
          (fun st' =>
             match cb with
             | Callable f =>
                 (f (calls st') sp request,
                  with_call (CStartSpanCb sp (request_key request)) st')
             | NotCallable =>
                 (Raise (Exc TypeError "object is not callable"), st')
             end)
          Exception
          (fun _ => ret tt)
          st
    end.

(** The key written into [headers] for one item of [request.META]:
    [k.lower().replace('_', '-')], then [k[5:]] if it starts with ['http-']. *)
Definition normalize_key (k : string) : string :=
  let k := replace "_"%char "-"%char (lower k) in
  if startswith "http-" k then slice_from 5 k else k.

(** The loop filling [headers] from [request.META]. *)
Definition strip_headers (meta : list (string * string)) : gmap string string :=
  foldl (fun headers kv => <[normalize_key kv.1 := kv.2]> headers) ∅ meta.

(** A view function: its [__name__], when it has one, and its body, which
    may itself run traced code on the same state. *)
Record ViewFunc := mkViewFunc {
  __name__ : option string;
  call_view : Request -> M (option Response)
}.

Definition view_name (view_func : ViewFunc) : M string :=
  match __name__ view_func with
  | Some n => ret n
  | None => raise (Exc AttributeError "object has no attribute '__name__'")
  end.

(** [self._current_scopes.setdefault(request, []).append(scope)] *)
Definition push_scope (request : Request) (scope : Scope) : M unit :=
  fun st =>
    let m := _current_scopes (self st) in
    let l : list Scope := default [] (m !! request_key request) in
    (Ok tt, with_scopes (<[request_key request := (l ++ [scope])%list]> m) st).

Definition getattr_str (request : Request) (attr : string) : option string :=
  snd <$> List.find (fun kv => String.eqb (fst kv) attr) (request_attrs request).

(** [scope = self._current_scopes[request].pop()]: the last item of the list
    is removed in place and returned. *)
Definition pop_scope (request : Request) : M Scope :=
  fun st =>
    let m := _current_scopes (self st) in
    match m !! request_key request with
    | None => (Raise (Exc KeyError "request"), st)
    | Some l =>
        match last l with
        | None => (Raise (Exc IndexError "pop from empty list"), st)
        | Some scope =>
            (Ok scope, with_scopes (<[request_key request := removelast l]> m) st)
        end
    end.

(** [if not self._current_scopes[request]: del self._current_scopes[request]] *)
Definition free_if_empty (request : Request) : M unit :=
  fun st =>
    let m := _current_scopes (self st) in
    match m !! request_key request with
    | None => (Raise (Exc KeyError "request"), st)
    | Some [] => (Ok tt, with_scopes (delete (request_key request) m) st)
    | Some (_ :: _) => (Ok tt, st)
    end.

(** [_apply_tracing(request, view_func, attributes)].  The function is one
    [try] statement: [_apply_tracing_try] is its [try] suite, and
    [_apply_tracing] adds the [except Exception] clause, whose handler
    evaluates [str(exc)] and logs.  The value is the new scope, or [None]
    when the handler ran to its end. *)
Definition _apply_tracing_try (request : Request) (view_func : ViewFunc)
    (attributes : list string) : M (option Scope) :=
  (* strip headers for trace info *)
  let headers := strip_headers (META request) in
  (* start new span from trace info *)
  operation_name <- view_name view_func ;;
  scope <- try_except
             (span_ctx <- tracer_extract headers ;;
              tracer_start_active_span operation_name (Some span_ctx))
             carrier_errors
             (fun _ =>
                scope <- tracer_start_active_span operation_name None ;;
                (* inject writes into the local [headers], which is not
                   read again below *)
                _ <- tracer_inject scope headers ;;
                ret scope) ;;
  (* add span to current spans *)
  push_scope request scope ;;
  (* standard tags *)
  span_set_tag (span scope) COMPONENT (VStr "django") ;;
  span_set_tag (span scope) SPAN_KIND (VStr SPAN_KIND_RPC_SERVER) ;;
  span_set_tag (span scope) HTTP_METHOD (VStr (method request)) ;;
  span_set_tag (span scope) HTTP_URL (VStr (get_full_path request)) ;;
  (* log any traced attributes *)
  for_each attributes (fun attr =>
    match getattr_str request attr with
    | Some payload =>
        if String.eqb payload "" then ret tt
        else span_set_tag (span scope) attr (VStr payload)
    | None => ret tt
    end) ;;
  (* invoke the start span callback, if any *)
  _call_start_span_cb (span scope) request ;;
  ret (Some scope).

Definition _apply_tracing (request : Request) (view_func : ViewFunc)
    (attributes : list string) : M (option Scope) :=
  try_except
    (_apply_tracing_try request view_func attributes)
    Exception
    (fun exc =>
       msg <- str exc ;;
       logging_error ("Exception during apply tracing: " ++ msg) ;;
       ret None).

(** [_finish_tracing(request, response=None, error=None)], split in the same
    way.  The test [scope is None] of the source is never true of a popped
    [Scope] and has no counterpart here. *)
Definition _finish_tracing_try (request : Request) (response : option Response)
    (error : option exn) : M unit :=
  fun st =>
    match _current_scopes (self st) !! request_key request with
    | None => ret tt st
    | Some _ =>
        (scope <- pop_scope request ;;
         (* free scope dict once all items are consumed *)
         free_if_empty request ;;
         match error with
         | Some e =>
             span_set_tag (span scope) ERROR (VBool true) ;;
             span_log_kv (span scope)
               [("event", LStr ERROR); ("error.object", LExc e)]
         | None => ret tt
         end ;;
         match response with
         | Some r =>
             span_set_tag (span scope) HTTP_STATUS_CODE (VInt (status_code r))
         | None => ret tt
         end ;;
         scope_close scope) st
    end.

Definition _finish_tracing (request : Request) (response : option Response)
    (error : option exn) : M unit :=
  try_except
    (_finish_tracing_try request response error)
    Exception
    (fun exc =>
       msg <- str exc ;;
       logging_error ("Exception during finish tracing: " ++ msg)).

(** [trace(view, *attributes)(view_func)]: the wrapper put around
    [view_func]. *)
Definition trace (view : bool) (attributes : list string)
    (view_func : ViewFunc) (request : Request) : M (option Response) :=
  fun st =>
    (* if tracing all already, return right away *)
    if _trace_all (self st) && view then call_view view_func request st
    else
      (r <- try_except
              (_apply_tracing request view_func attributes ;;
               call_view view_func request)
              Exception
              (fun exc =>
                 _finish_tracing request None (Some exc) ;;
                 raise exc) ;;
       _finish_tracing request r None ;;
       ret r) st.

(** *** initialize_global_tracer *)

Definition initialize_global_tracer (tracing : DjangoTracing) (g : Globals)
    : Globals :=
  if complete g then g
  else
    let g1 := match _tracer_implementation tracing with
              | Some t => {| opentracing_tracer := t; complete := complete g |}
              | None => g
              end in
    {| opentracing_tracer := opentracing_tracer g1; complete := true |}.

(** The module as first imported: [initialize_global_tracer.complete = False],
    and [opentracing.tracer] is whatever the process had, [t0]. *)
Definition module_globals (t0 : Tracer) : Globals :=
  {| opentracing_tracer := t0; complete := false |}.

End Tracing.
Import Tracing.
Local Open Scope py_scope.

(* ===================================================================== *)
(** ** A concrete tracer to run the embedding on *)
(* ===================================================================== *)

Module RefTracer.

(** Text-map propagation over two carrier keys. *)
Definition TRACE_KEY : string := "ot-tracer-traceid".
Definition SPAN_KEY : string := "ot-tracer-spanid".

Definition is_start (c : Call) : bool :=
  match c with CStartActiveSpan _ _ => true | _ => false end.

Definition count_started (history : list Call) : nat :=
  length (List.filter is_start history).

(** [extract] wants both keys and raises [SpanContextCorruptedException]
    otherwise; [start_active_span] hands out scopes numbered in order of
    creation; [inject] accepts the scope it is given and writes both keys. *)
Definition ref_extract (history : list Call) (carrier : gmap string string)
    : res SpanContext :=
  match carrier !! TRACE_KEY, carrier !! SPAN_KEY with
  | Some t, Some s => Ok (mkSpanContext t s)
  | _, _ => Raise (Exc SpanContextCorruptedException "missing trace id")
  end.

Definition ref_start (history : list Call) (operation_name : string)
    (child_of : option SpanContext) : res Scope :=
  let n := count_started history in Ok (mkScope n (mkSpan n)).

Definition ref_inject (history : list Call) (what : Scope)
    (carrier : gmap string string) : res (gmap string string) :=
  Ok (<[SPAN_KEY := pretty (span_id (span what))]>
        (<[TRACE_KEY := "1"]> carrier)).

Definition ref_tracer : Tracer :=
  {| extract := ref_extract; start_active_span := ref_start;
     inject := ref_inject |}.

(** A tracer whose [inject] insists on a span context and raises on the
    scope object it is handed. *)
Definition strict_tracer : Tracer :=
  {| extract := ref_extract; start_active_span := ref_start;
     inject := fun _ _ _ => Raise (Exc ValueError "expecting a SpanContext") |}.

(** A tracer that cannot start spans. *)
Definition broken_tracer : Tracer :=
  {| extract := ref_extract;
     start_active_span := fun _ _ _ => Raise (Exc (OtherException "RuntimeError") "tracer is down");
     inject := ref_inject |}.

(** Span objects whose methods return normally. *)
Definition ops : SpanOps :=
  {| set_tag := fun _ _ _ _ => Ok tt;
     log_kv := fun _ _ _ => Ok tt;
     close := fun _ _ => Ok tt |}.

(** Span objects whose [set_tag] raises. *)
Definition failing_ops : SpanOps :=
  {| set_tag := fun _ _ _ _ => Raise (Exc (OtherException "RuntimeError") "span is read-only");
     log_kv := fun _ _ _ => Ok tt;
     close := fun _ _ => Ok tt |}.

(** Span objects whose [log_kv] raises: the error object cannot be
    recorded. *)
Definition unloggable_ops : SpanOps :=
  {| set_tag := fun _ _ _ _ => Ok tt;
     log_kv := fun _ _ _ => Raise (Exc TypeError "cannot serialize");
     close := fun _ _ => Ok tt |}.

(** A fresh [DjangoTracing(t, cb)] in a fresh process, with span objects
    behaving as [o]. *)
Definition fresh_on (t : Tracer) (o : SpanOps) (cb : option pyobj) : State :=
  {| self := {| _tracer_implementation := Some t; _start_span_cb := cb;
                _current_scopes := ∅; _trace_all := false |};
     globals := module_globals ref_tracer;
     span_ops := o; calls := []; logged := [] |}.

Definition fresh (cb : option pyobj) : State := fresh_on ref_tracer ops cb.
Definition fresh_self (cb : option pyobj) : DjangoTracing := self (fresh cb).

Definition reqA : Request :=
  {| request_key := 1;
     META := [("HTTP_USER_AGENT", "curl"); ("REQUEST_METHOD", "GET")];
     method := "GET"; get_full_path := "/foo";
     request_attrs := [("user_id", "42"); ("empty", "")] |}.

Definition reqB : Request :=
  {| request_key := 2;
     META := [("HTTP_OT_TRACER_TRACEID", "ab"); ("HTTP_OT_TRACER_SPANID", "cd")];
     method := "POST"; get_full_path := "/bar"; request_attrs := [] |}.

Definition viewFoo : ViewFunc :=
  {| __name__ := Some "viewFoo";
     call_view := fun _ => ret (Some (mkResponse 200)) |}.

Definition viewBar : ViewFunc :=
  {| __name__ := Some "viewBar";
     call_view := fun _ => ret (Some (mkResponse 200)) |}.

(** A callable without [__name__], as [functools.partial(view)] is. *)
Definition partialView : ViewFunc :=
  {| __name__ := None;
     call_view := fun _ => ret (Some (mkResponse 200)) |}.

Definition viewBoom : ViewFunc :=
  {| __name__ := Some "viewBoom";
     call_view := fun _ => raise (Exc (OtherException "Http404") "not found") |}.

(** The carrier built from [reqA], and the first two scopes handed out. *)
Definition carrierA : gmap string string := strip_headers (META reqA).
Definition scope0 : Scope := mkScope 0 (mkSpan 0).
Definition scope1 : Scope := mkScope 1 (mkSpan 1).

(** The state after one begin on [reqA]. *)
Definition after_begin : State :=
  (_apply_tracing reqA viewFoo ["user_id"] (fresh None)).2.

(** Two nested begins, and the two ends that match them. *)
Definition two_begins : list (ViewFunc * list string) :=
  [(viewFoo, []); (viewBar, ["user_id"])].
Definition two_ends : list (option Response * option exn) :=
  [(Some (mkResponse 200), None);
   (None, Some (Exc (OtherException "Http404") "not found"))].

(** A state like [fresh], on the tracer whose [inject] rejects scopes. *)
Definition fresh_strict : State := fresh_on strict_tracer ops None.

(** A callback that raises. *)
Definition raising_cb : pyobj :=
  Callable (fun _ _ _ => Raise (Exc (OtherException "KeyError") "user"))%string.

(** A callback that calls [sys.exit], span objects whose [close] is
    interrupted from the keyboard, a tracer that raises an exception whose
    [__str__] raises, and a view function interrupted from the keyboard. *)
Definition exiting_cb : pyobj :=
  Callable (fun _ _ _ => Raise (Exc SystemExit "0"))%string.

Definition interrupted_ops : SpanOps :=
  {| set_tag := fun _ _ _ _ => Ok tt;
     log_kv := fun _ _ _ => Ok tt;
     close := fun _ _ => Raise (Exc KeyboardInterrupt "") |}.

Definition unprintable_tracer : Tracer :=
  {| extract := ref_extract;
     start_active_span := fun _ _ _ =>
       Raise (Exc (Unprintable "Weird" (OtherException "RuntimeError"))
                  "str failed");
     inject := ref_inject |}.

Definition viewInterrupt : ViewFunc :=
  {| __name__ := Some "viewInterrupt";
     call_view := fun _ => raise (Exc KeyboardInterrupt "") |}.

End RefTracer.


(* ===================================================================== *)
(** ** Runs of begin and end calls *)
(* ===================================================================== *)

(** The scopes recorded for a request key, outermost first; a key that is
    not in the mapping has none. *)
Definition stack_of (this : DjangoTracing) (k : nat) : list Scope :=
  default [] (_current_scopes this !! k).

(** No key of [_current_scopes] is bound to an empty list. *)
Definition no_empty_stack (this : DjangoTracing) : Prop :=
  ∀ k l, _current_scopes this !! k = Some l → l ≠ [].

(** One begin or end call, and sequences of them.  Whether a call returns
    or raises, the next one finds the state it left, so only the state is
    carried on. *)
Inductive Op :=
| Begin (request : Request) (view_func : ViewFunc) (attributes : list string)
| End (request : Request) (response : option Response) (error : option exn).

Definition run_op (o : Op) (st : State) : State :=
  match o with
  | Begin request view_func attributes =>
      (_apply_tracing request view_func attributes st).2
  | End request response error =>
      (_finish_tracing request response error st).2
  end.

Definition run_ops (ops : list Op) (st : State) : State :=
  foldl (fun st o => run_op o st) st ops.

(** [begins request bs]: one begin per item of [bs] on the same request,
    collecting what each returned. *)
Fixpoint begins (request : Request) (bs : list (ViewFunc * list string))
    (st : State) : list (option Scope) * State :=
  match bs with
  | [] => ([], st)
  | b :: bs' =>
      let '(r, st1) := _apply_tracing request b.1 b.2 st in
      let '(rs, st2) := begins request bs' st1 in
      (match r with Ok o => o | Raise _ => None end :: rs, st2)
  end.

(** [ends request es]: one end per item of [es] on the same request. *)
Definition ends (request : Request) (es : list (option Response * option exn))
    (st : State) : State :=
  foldl (fun st e => (_finish_tracing request e.1 e.2 st).2) st es.


(** A statement that only talks to the outside: it leaves the tracker, the
    globals and the log alone, and adds to the calls made. *)
Definition untouched (st st' : State) : Prop :=
  self st' = self st ∧ globals st' = globals st ∧
  span_ops st' = span_ops st ∧ logged st' = logged st ∧
  ∃ cs, calls st' = (calls st ++ cs)%list.

Definition external {A} (c : M A) : Prop := ∀ st, untouched st (c st).2.

(** The span methods never raise. *)
Definition span_ops_return (o : SpanOps) : Prop :=
  (∀ h sp k v, set_tag o h sp k v = Ok tt) ∧
  (∀ h sp kv, log_kv o h sp kv = Ok tt) ∧
  (∀ h sc, close o h sc = Ok tt).

(** Two stretches of [_apply_tracing_try], named for the proofs: the inner
    [try] statement that obtains the scope, and everything after the push. *)
Definition start_span_from_trace_info (headers : gmap string string)
    (operation_name : string) : M Scope :=
  try_except
    (span_ctx <- tracer_extract headers ;;
     tracer_start_active_span operation_name (Some span_ctx))
    carrier_errors
    (fun _ =>
       scope <- tracer_start_active_span operation_name None ;;
       _ <- tracer_inject scope headers ;;
       ret scope).

Definition tag_new_span (request : Request) (scope : Scope)
    (attributes : list string) : M (option Scope) :=
  span_set_tag (span scope) COMPONENT (VStr "django") ;;
  span_set_tag (span scope) SPAN_KIND (VStr SPAN_KIND_RPC_SERVER) ;;
  span_set_tag (span scope) HTTP_METHOD (VStr (method request)) ;;
  span_set_tag (span scope) HTTP_URL (VStr (get_full_path request)) ;;
  for_each attributes (fun attr =>
    match getattr_str request attr with
    | Some payload =>
        if String.eqb payload "" then ret tt
        else span_set_tag (span scope) attr (VStr payload)
    | None => ret tt
    end) ;;
  _call_start_span_cb (span scope) request ;;
  ret (Some scope).

(** The stretch of [_finish_tracing_try] that follows the pop. *)
Definition record_outcome (scope : Scope) (response : option Response)
    (error : option exn) : M unit :=
  match error with
  | Some e =>
      span_set_tag (span scope) ERROR (VBool true) ;;
      span_log_kv (span scope)
        [("event", LStr ERROR); ("error.object", LExc e)]
  | None => ret tt
  end ;;
  match response with
  | Some r =>
      span_set_tag (span scope) HTTP_STATUS_CODE (VInt (status_code r))
  | None => ret tt
  end ;;
  scope_close scope.

(** The loop of [strip_headers] started from any dictionary. *)
Definition fill_headers (acc : gmap string string)
    (meta : list (string * string)) : gmap string string :=
  foldl (fun headers kv => <[normalize_key kv.1 := kv.2]> headers) acc meta.

(** What normalization does to one character of a key, written from the
    description of begin: letters are lower-cased and an underscore becomes a
    hyphen. *)
Definition spec_key_char (c : ascii) : ascii :=
  if Ascii.eqb c "_" then "-"%char else lower_char c.

(** The calls an end call is to make on the popped scope, written from the
    description of end: tag the span as errored and log the error object
    when [error] is given, tag the status code when [response] is given,
    then close the scope. *)
Definition spec_end_calls (scope : Scope) (response : option Response)
    (error : option exn) : list Call :=
  (match error with
   | Some e =>
       [CSetTag (span scope) "error" (VBool true);
        CLogKv (span scope) [("event", LStr "error"); ("error.object", LExc e)]]
   | None => []
   end ++
   match response with
   | Some r => [CSetTag (span scope) "http.status_code" (VInt (status_code r))]
   | None => []
   end ++
   [CClose scope])%list.

(** The tracker after [scope] has been appended to the list of [request]. *)
Definition pushed (request : Request) (scope : Scope) (this : DjangoTracing)
    : DjangoTracing :=
  {| _tracer_implementation := _tracer_implementation this;
     _start_span_cb := _start_span_cb this;
     _current_scopes :=
       <[request_key request := (stack_of this (request_key request) ++ [scope])%list]>
         (_current_scopes this);
     _trace_all := _trace_all this |}.

(** The tracker after the last scope of [request] has been removed, the key
    going with it when nothing is left. *)
Definition popped (request : Request) (this : DjangoTracing) : DjangoTracing :=
  let l := removelast (stack_of this (request_key request)) in
  {| _tracer_implementation := _tracer_implementation this;
     _start_span_cb := _start_span_cb this;
     _current_scopes :=
       match l with
       | [] => delete (request_key request) (_current_scopes this)
       | _ :: _ => <[request_key request := l]> (_current_scopes this)
       end;
     _trace_all := _trace_all this |}.

(** The request an operation is about. *)
Definition op_request (o : Op) : Request :=
  match o with Begin request _ _ => request | End request _ _ => request end.

(** The same runs written as operations. *)
Definition begin_ops (request : Request) (bs : list (ViewFunc * list string))
    : list Op :=
  (fun b => Begin request b.1 b.2) <$> bs.

Definition end_ops (request : Request)
    (es : list (option Response * option exn)) : list Op :=
  (fun e => End request e.1 e.2) <$> es.

(** Calls made on the tracer itself, as opposed to spans, scopes and the
    callback. *)
Definition is_tracer_call (c : Call) : bool :=
  match c with
  | CExtract _ | CStartActiveSpan _ _ | CInject _ _ => true
  | _ => false
  end.

(** The tags begin sets on a new span, read off lines 112-123 of the source:
    the four standard tags, then one tag per requested attribute that the
    request has and whose string is not empty. *)
Definition attribute_tags (request : Request) (sp : Span)
    (attributes : list string) : list Call :=
  omap (fun attr =>
          match getattr_str request attr with
          | Some payload =>
              if String.eqb payload "" then None
              else Some (CSetTag sp attr (VStr payload))
          | None => None
          end) attributes.

Definition begin_tags (request : Request) (sp : Span)
    (attributes : list string) : list Call :=
  ([CSetTag sp "component" (VStr "django");
    CSetTag sp "span.kind" (VStr "server");
    CSetTag sp "http.method" (VStr (method request));
    CSetTag sp "http.url" (VStr (get_full_path request))] ++
   attribute_tags request sp attributes)%list.

(** The call on the start-span callback, when one is configured. *)
Definition callback_calls (this : DjangoTracing) (sp : Span)
    (request : Request) : list Call :=
  match _start_span_cb this with
  | Some (Callable _) => [CStartSpanCb sp (request_key request)]
  | _ => []
  end.

(** Upper-case ASCII letters. *)
Definition is_upper (c : ascii) : bool :=
  let n := N_of_ascii c in ((65 <=? n) && (n <=? 90))%N.

(** The characters of a string. *)
Fixpoint chars (s : string) : list ascii :=
  match s with
  | EmptyString => []
  | String c s' => c :: chars s'
  end.

(** A statement all of whose calls satisfy [P]. *)
Definition adds_only (P : Call → Prop) {A} (c : M A) : Prop :=
  ∀ st, ∃ cs, calls (c st).2 = (calls st ++ cs)%list ∧ Forall P cs.

(** An exception the handlers of begin and end deal with to the end: an
    instance of [Exception] whose [str()] returns. *)
Definition loggable (e : exn) : Prop :=
  is_Exception e = true ∧ is_raise (str_of e) = false.

Definition raises_loggable {A} (r : res A) : Prop :=
  ∀ e, r = Raise e → loggable e.

(** The tracer in use and the span objects raise nothing but loggable
    exceptions, and the callback nothing but instances of [Exception]. *)
Definition collaborators_raise_loggable (st : State) : Prop :=
  (∀ h c, raises_loggable (extract (tracer st) h c)) ∧
  (∀ h n p, raises_loggable (start_active_span (tracer st) h n p)) ∧
  (∀ h sc c, raises_loggable (inject (tracer st) h sc c)) ∧
  (∀ h sp k v, raises_loggable (set_tag (span_ops st) h sp k v)) ∧
  (∀ h sp kv, raises_loggable (log_kv (span_ops st) h sp kv)) ∧
  (∀ h sc, raises_loggable (close (span_ops st) h sc)) ∧
  (∀ f h sp request e,
     _start_span_cb (self st) = Some (Callable f) →
     f h sp request = Raise e → is_Exception e = true).

(** A statement that, run among such collaborators, leaves them in place
    and raises nothing but loggable exceptions. *)
Definition raises_only_loggable {A} (c : M A) : Prop :=
  ∀ st, collaborators_raise_loggable st →
        collaborators_raise_loggable (c st).2 ∧
        ∀ e, (c st).1 = Raise e → loggable e.

(** What a statement sequence ending in an end call comes to: what the end
    call raised if it raised, and [outcome] otherwise. *)
Definition after_end {A} (ended : res unit * State) (outcome : res A)
    : res A * State :=
  match ended with
  | (Ok _, st) => (outcome, st)
  | (Raise e, st) => (Raise e, st)
  end.

(* ===================================================================== *)
(** ** Basic facts about statements *)
(* ===================================================================== *)

Section Statements.

Lemma untouched_refl st : untouched st st.
Proof. split_and!; try done. exists []. by rewrite app_nil_r. Qed.

Lemma untouched_trans st1 st2 st3 :
  untouched st1 st2 → untouched st2 st3 → untouched st1 st3.
Proof.
  intros (a1 & a2 & a3 & a4 & cs1 & a5) (b1 & b2 & b3 & b4 & cs2 & b5).
  split_and!; try congruence.
  exists (cs1 ++ cs2)%list. by rewrite b5, a5, app_assoc.
Qed.

Lemma untouched_with_call c st : untouched st (with_call c st).
Proof. split_and!; try done. by exists [c]. Qed.

Lemma external_ret {A} (a : A) : external (ret a).
Proof. intros st. apply untouched_refl. Qed.

Lemma external_raise {A} (e : exn) : external (@raise A e).
Proof. intros st. apply untouched_refl. Qed.

Lemma external_bind {A B} (c : M A) (k : A → M B) :
  external c → (∀ a, external (k a)) → external (bind c k).
Proof.
  intros Hc Hk st. unfold bind. specialize (Hc st).
  destruct (c st) as [[a|e] st1]; simpl in *; [|done].
  eapply untouched_trans; [exact Hc|apply Hk].
Qed.

Lemma external_try_except {A} (body : M A) catches handler :
  external body → (∀ e, external (handler e)) →
  external (try_except body catches handler).
Proof.
  intros Hb Hh st. unfold try_except. specialize (Hb st).
  destruct (body st) as [[a|e] st1]; simpl in *; [done|].
  destruct (catches e); [|done].
  eapply untouched_trans; [exact Hb|apply Hh].
Qed.

Lemma external_for_each {A} (xs : list A) (body : A → M unit) :
  (∀ x, external (body x)) → external (for_each xs body).
Proof.
  intros Hb. induction xs as [|x xs IH]; simpl.
  - apply external_ret.
  - apply external_bind; [apply Hb|done].
Qed.

Lemma external_extract h : external (tracer_extract h).
Proof. intros st. apply untouched_with_call. Qed.

Lemma external_start n p : external (tracer_start_active_span n p).
Proof. intros st. apply untouched_with_call. Qed.

Lemma external_inject sc h : external (tracer_inject sc h).
Proof. intros st. apply untouched_with_call. Qed.

Lemma external_set_tag sp k v : external (span_set_tag sp k v).
Proof. intros st. apply untouched_with_call. Qed.

Lemma external_log_kv sp kv : external (span_log_kv sp kv).
Proof. intros st. apply untouched_with_call. Qed.

Lemma external_close sc : external (scope_close sc).
Proof. intros st. apply untouched_with_call. Qed.

Lemma external_view_name v : external (view_name v).
Proof. unfold view_name. destruct (__name__ v); [apply external_ret|apply external_raise]. Qed.

(** The callback wrapper returns normally unless the callback raises
    something that is not an [Exception]; that object it lets through. *)
Lemma call_start_span_cb_result sp request st :
  (_call_start_span_cb sp request st).1 = Ok tt ∨
  ∃ f e, _start_span_cb (self st) = Some (Callable f) ∧
         f (calls st) sp request = Raise e ∧ is_Exception e = false ∧
         (_call_start_span_cb sp request st).1 = Raise e.
Proof.
  unfold _call_start_span_cb, try_except, Exception.
  destruct (_start_span_cb (self st)) as [[f|]|]; simpl; try by left.
  destruct (f (calls st) sp request) as [[]|e] eqn:Hf; [by left|].
  destruct (is_Exception e) eqn:He; [by left|].
  right. by exists f, e.
Qed.

Lemma external_call_start_span_cb sp request :
  external (_call_start_span_cb sp request).
Proof.
  intros st. unfold _call_start_span_cb, try_except, Exception.
  destruct (_start_span_cb (self st)) as [[f|]|]; simpl;
    try apply untouched_refl.
  destruct (f (calls st) sp request) as [[]|e];
    [|destruct (is_Exception e)]; apply untouched_with_call.
Qed.

(** A [try] statement whose handler evaluates [str(exc)] and goes on with
    the text. *)
Lemma try_except_str_cases {A} (body : M A) (k : string → M A) st :
  try_except body Exception (fun exc => msg <- str exc ;; k msg) st =
  match body st with
  | (Ok a, st1) => (Ok a, st1)
  | (Raise e, st1) =>
      if is_Exception e
      then match str_of e with
           | Ok msg => k msg st1
           | Raise e' => (Raise e', st1)
           end
      else (Raise e, st1)
  end.
Proof.
  unfold try_except, Exception, bind, str.
  destruct (body st) as [[a|e] st1]; [done|].
  destruct (is_Exception e); [|done]. by destruct (str_of e).
Qed.

End Statements.

Create HintDb ext.
#[local] Hint Resolve external_ret external_raise external_extract
  external_start external_inject external_set_tag external_log_kv
  external_close external_view_name external_call_start_span_cb : ext.

(* ===================================================================== *)
(** ** What begin and end do to the tracker *)
(* ===================================================================== *)

Section BeginEnd.

Lemma apply_tracing_try_unfold request view_func attributes :
  _apply_tracing_try request view_func attributes =
  (operation_name <- view_name view_func ;;
   scope <- start_span_from_trace_info (strip_headers (META request))
              operation_name ;;
   push_scope request scope ;;
   tag_new_span request scope attributes).
Proof. reflexivity. Qed.

Lemma bind_ok_inv {A B} (c : M A) (k : A → M B) st b st' :
  bind c k st = (Ok b, st') →
  ∃ a st1, c st = (Ok a, st1) ∧ k a st1 = (Ok b, st').
Proof.
  unfold bind. destruct (c st) as [[a|e] st1]; [eauto|done].
Qed.

Lemma external_start_span h n : external (start_span_from_trace_info h n).
Proof.
  apply external_try_except.
  - apply external_bind; auto with ext.
  - intros _. apply external_bind; [auto with ext|].
    intros sc. apply external_bind; auto with ext.
Qed.

Lemma external_tag_new_span request scope attributes :
  external (tag_new_span request scope attributes).
Proof.
  unfold tag_new_span.
  do 4 (apply external_bind; [auto with ext|intros _]).
  apply external_bind.
  - apply external_for_each. intros attr.
    destruct (getattr_str request attr) as [payload|]; [|auto with ext].
    destruct (String.eqb payload ""); auto with ext.
  - intros _. apply external_bind; auto with ext.
Qed.

Lemma tag_new_span_value request scope attributes st o st' :
  tag_new_span request scope attributes st = (Ok o, st') → o = Some scope.
Proof.
  unfold tag_new_span. intros H.
  repeat (apply bind_ok_inv in H as (? & ? & _ & H)).
  unfold ret in H. congruence.
Qed.

(** The try suite of begin: it fails before the push and leaves the tracker
    as it was, or it pushes one scope and then returns it or fails. *)
Lemma apply_tracing_try_cases request view_func attributes st r st' :
  _apply_tracing_try request view_func attributes st = (r, st') →
  globals st' = globals st ∧ span_ops st' = span_ops st ∧
  logged st' = logged st ∧
  ((self st' = self st ∧ is_raise r = true) ∨
   (∃ sc, self st' = pushed request sc (self st) ∧
          (r = Ok (Some sc) ∨ is_raise r = true))).
Proof.
  rewrite apply_tracing_try_unfold. unfold bind at 1, view_name.
  destruct (__name__ view_func) as [n|]; simpl.
  2:{ intros [= <- <-]. split_and!; try done. by left. }
  unfold bind at 1.
  pose proof (external_start_span (strip_headers (META request)) n st) as Hi.
  destruct (start_span_from_trace_info _ n st) as [[sc|e] st1];
    simpl in Hi; destruct Hi as (Hs & Hg & Ho & Hl & _).
  2:{ intros [= <- <-]. split_and!; try done. by left. }
  unfold bind at 1. unfold push_scope at 1. cbv beta iota zeta.
  match goal with |- context [tag_new_span _ _ _ ?s] => set (st2 := s) end.
  pose proof (external_tag_new_span request sc attributes st2) as Hrest.
  pose proof (tag_new_span_value request sc attributes st2) as Hret.
  destruct (tag_new_span request sc attributes st2) as [r' st3]. simpl in *.
  destruct Hrest as (Hs3 & Hg3 & Ho3 & Hl3 & _).
  intros [= <- <-].
  split_and!; try (subst st2; simpl in *; congruence).
  right. exists sc. split.
  - rewrite Hs3. subst st2. unfold with_scopes, pushed, stack_of. simpl.
    by rewrite Hs.
  - destruct r' as [o|e]; [left|by right].
    f_equal. by eapply Hret.
Qed.

(** Begin as a whole: it returns the scope it pushed and logs nothing, or it
    returns [None] and has logged one line, or it raises (an object that is
    not an [Exception], or what [str(exc)] raised in the handler) and has
    logged nothing. *)
Lemma apply_tracing_cases request view_func attributes st r st' :
  _apply_tracing request view_func attributes st = (r, st') →
  globals st' = globals st ∧ span_ops st' = span_ops st ∧
  ((∃ sc, r = Ok (Some sc) ∧ self st' = pushed request sc (self st) ∧
          logged st' = logged st) ∨
   (∃ msg, r = Ok None ∧
         logged st' =
           (logged st ++ [("Exception during apply tracing: " ++ msg)%string])%list ∧
         (self st' = self st ∨ ∃ sc, self st' = pushed request sc (self st))) ∨
   (is_raise r = true ∧ logged st' = logged st ∧
    (self st' = self st ∨ ∃ sc, self st' = pushed request sc (self st)))).
Proof.
  unfold _apply_tracing. rewrite try_except_str_cases.
  destruct (_apply_tracing_try request view_func attributes st)
    as [r1 st1] eqn:Htry.
  apply apply_tracing_try_cases in Htry as (Hg & Ho & Hl & Hcases).
  assert (Hself : self st1 = self st ∨
                  ∃ sc, self st1 = pushed request sc (self st)).
  { destruct Hcases as [[? _]|(sc & Hs & _)]; eauto. }
  destruct r1 as [o|e].
  - intros [= <- <-]. split_and!; try done. left.
    destruct Hcases as [[_ ?]|(sc & Hs & [[= ->]|?])]; try done.
    by exists sc.
  - destruct (is_Exception e); [destruct (str_of e) as [msg|e']|].
    + unfold bind, logging_error, ret. intros [= <- <-]. simpl.
      split_and!; try done. right; left. exists msg. by rewrite Hl.
    + intros [= <- <-]. split_and!; try done. right; right. by split_and!.
    + intros [= <- <-]. split_and!; try done. right; right. by split_and!.
Qed.

(** A begin that returns a scope has pushed it and logged nothing. *)
Lemma apply_tracing_some request view_func attributes st sc st' :
  _apply_tracing request view_func attributes st = (Ok (Some sc), st') →
  self st' = pushed request sc (self st) ∧ logged st' = logged st ∧
  globals st' = globals st ∧ span_ops st' = span_ops st.
Proof.
  intros H. apply apply_tracing_cases in H
    as (Hg & Ho & [(sc' & Hr & Hs & Hl)|[(msg & Hr & _)|(Hr & _)]]);
    [|done|done].
  injection Hr as <-. by split_and!.
Qed.

Lemma finish_tracing_try_unfold request response error st :
  _finish_tracing_try request response error st =
  match _current_scopes (self st) !! request_key request with
  | None => (Ok tt, st)
  | Some _ =>
      (scope <- pop_scope request ;;
       free_if_empty request ;;
       record_outcome scope response error) st
  end.
Proof. reflexivity. Qed.

Lemma external_record_outcome scope response error :
  external (record_outcome scope response error).
Proof.
  unfold record_outcome. apply external_bind.
  - destruct error; [|auto with ext]. apply external_bind; auto with ext.
  - intros _. apply external_bind; [destruct response|]; auto with ext.
Qed.

(** Popping and freeing, taken together. *)
Lemma pop_then_free request st l sc :
  _current_scopes (self st) !! request_key request = Some (l ++ [sc])%list →
  ∃ st1, pop_scope request st = (Ok sc, st1) ∧
  ∃ st2, free_if_empty request st1 = (Ok tt, st2) ∧
         self st2 = popped request (self st) ∧ globals st2 = globals st ∧
         span_ops st2 = span_ops st ∧ logged st2 = logged st ∧
         calls st2 = calls st.
Proof.
  intros Hl. unfold pop_scope. rewrite Hl, last_snoc, removelast_last.
  eexists; split; [done|].
  unfold free_if_empty. simpl. rewrite lookup_insert_eq.
  unfold popped, stack_of. rewrite Hl. simpl. rewrite removelast_last.
  destruct l as [|s0 l]; eexists; (split; [done|]); simpl;
    split_and!; try done.
  by rewrite delete_insert_eq.
Qed.

(** End as a whole. *)
Lemma finish_tracing_cases request response error st r st' :
  _finish_tracing request response error st = (r, st') →
  globals st' = globals st ∧ span_ops st' = span_ops st ∧
  ((_current_scopes (self st) !! request_key request = None ∧
    r = Ok tt ∧ st' = st) ∨
   (_current_scopes (self st) !! request_key request = Some [] ∧
    r = Ok tt ∧ self st' = self st ∧
    logged st' =
      (logged st ++ ["Exception during finish tracing: pop from empty list"])%list) ∨
   (∃ l sc,
      _current_scopes (self st) !! request_key request = Some (l ++ [sc])%list ∧
      self st' = popped request (self st) ∧
      ((r = Ok tt ∧ logged st' = logged st) ∨
       (∃ msg, r = Ok tt ∧
          logged st' =
            (logged st ++ [("Exception during finish tracing: " ++ msg)%string])%list) ∨
       (is_raise r = true ∧ logged st' = logged st)))).
Proof.
  unfold _finish_tracing. rewrite try_except_str_cases.
  rewrite finish_tracing_try_unfold.
  destruct (_current_scopes (self st) !! request_key request) as [l|] eqn:Hk.
  2:{ intros [= <- <-]. split_and!; try done. by left. }
  destruct (decide (l = [])) as [->|Hne].
  { unfold bind, pop_scope. rewrite Hk. simpl.
    intros [= <- <-]. split_and!; try done. right; left. by split_and!. }
  destruct (exists_last Hne) as (l' & sc & ->).
  destruct (pop_then_free request st l' sc Hk)
    as (st1 & Hpop & st2 & Hfree & Hs & Hg & Ho & Hlog & _).
  unfold bind at 1. rewrite Hpop. unfold bind at 1. rewrite Hfree.
  pose proof (external_record_outcome sc response error st2) as Hext.
  destruct (record_outcome sc response error st2) as [[[]|e] st3];
    simpl in Hext; destruct Hext as (Hs3 & Hg3 & Ho3 & Hl3 & _).
  - intros [= <- <-]. split_and!; try congruence.
    right; right. exists l', sc. split_and!; try congruence.
    left. split; congruence.
  - destruct (is_Exception e); [destruct (str_of e) as [msg|e']|].
    + unfold logging_error. intros [= <- <-]. simpl.
      split_and!; try congruence.
      right; right. exists l', sc. split_and!; try congruence.
      right; left. exists msg. split; congruence.
    + intros [= <- <-]. split_and!; try congruence.
      right; right. exists l', sc. split_and!; try congruence.
      right; right. split; [done|congruence].
    + intros [= <- <-]. split_and!; try congruence.
      right; right. exists l', sc. split_and!; try congruence.
      right; right. split; [done|congruence].
Qed.

(** The handlers of begin and end touch nothing but the log. *)
Lemma apply_tracing_frame request view_func attributes st :
  calls (_apply_tracing request view_func attributes st).2 =
    calls (_apply_tracing_try request view_func attributes st).2 ∧
  self (_apply_tracing request view_func attributes st).2 =
    self (_apply_tracing_try request view_func attributes st).2.
Proof.
  unfold _apply_tracing. rewrite try_except_str_cases.
  destruct (_apply_tracing_try request view_func attributes st)
    as [[o|e] st1]; [done|].
  destruct (is_Exception e); [|done]. by destruct (str_of e).
Qed.

Lemma finish_tracing_frame request response error st :
  calls (_finish_tracing request response error st).2 =
    calls (_finish_tracing_try request response error st).2 ∧
  self (_finish_tracing request response error st).2 =
    self (_finish_tracing_try request response error st).2.
Proof.
  unfold _finish_tracing. rewrite try_except_str_cases.
  destruct (_finish_tracing_try request response error st)
    as [[o|e] st1]; [done|].
  destruct (is_Exception e); [|done]. by destruct (str_of e).
Qed.

End BeginEnd.

(* ===================================================================== *)
(** ** The constructor and the global tracer *)
(* ===================================================================== *)

(** What a successful construction leaves in the fields. *)
Lemma init_ok_fields tracer start_span_cb this :
  __init__ tracer start_span_cb = Ok this →
  _current_scopes this = ∅ ∧ _trace_all this = false ∧
  _tracer_implementation this = tracer ∧
  _start_span_cb this = start_span_cb.
Proof.
  unfold __init__. destruct start_span_cb as [[f|]|]; simpl; try done;
    by intros [= <-].
Qed.

(** C10.  [DjangoTracing(tracer, start_span_cb)] raises exactly when
    [start_span_cb] is given and is not callable, and what it raises is a
    [ValueError]; otherwise it returns a tracker holding the two arguments,
    an empty [_current_scopes] and [_trace_all = False]. *)
Theorem init_checks_start_span_cb (tracer : option Tracer)
    (start_span_cb : option pyobj) :
  (is_raise (__init__ tracer start_span_cb) = true ↔
     ∃ o, start_span_cb = Some o ∧ callable o = false) ∧
  (∀ e, __init__ tracer start_span_cb = Raise e → exc_type e = ValueError) ∧
  (∀ this, __init__ tracer start_span_cb = Ok this →
     _current_scopes this = ∅ ∧ _trace_all this = false ∧
     _tracer_implementation this = tracer ∧
     _start_span_cb this = start_span_cb).
Proof.
  split_and!; [| |apply init_ok_fields].
  - unfold __init__. destruct start_span_cb as [[f|]|]; simpl.
    + split; [done|]. by intros (o & [= <-] & ?).
    + split; [|done]. intros _. by exists NotCallable.
    + split; [done|]. by intros (o & ? & _).
  - unfold __init__. destruct start_span_cb as [[f|]|]; simpl; try done.
    by intros e [= <-].
Qed.

(** C9.  In a process where [initialize_global_tracer] has not run yet, the
    first call installs the holder's tracer implementation as
    [opentracing.tracer] when there is one, keeps the current global tracer
    when there is none, and sets the flag; any calls that follow, whatever
    their arguments, leave the globals as that first call left them. *)
Theorem initialize_global_tracer_once (t0 : Tracer) (tracing : DjangoTracing)
    (later : list DjangoTracing) :
  let g1 := initialize_global_tracer tracing (module_globals t0) in
  opentracing_tracer g1 = default t0 (_tracer_implementation tracing) ∧
  complete g1 = true ∧
  foldl (fun g t => initialize_global_tracer t g) g1 later = g1.
Proof.
  cbv zeta. split_and!.
  - unfold initialize_global_tracer. simpl.
    by destruct (_tracer_implementation tracing).
  - done.
  - induction later as [|t later IH]; [done|].
    simpl. unfold initialize_global_tracer at 2. simpl. exact IH.
Qed.

(** Once the flag is set a call changes nothing, from any globals. *)
Lemma initialize_global_tracer_noop tracing g :
  complete g = true → initialize_global_tracer tracing g = g.
Proof. unfold initialize_global_tracer. by intros ->. Qed.

(* ===================================================================== *)
(** ** Failure policy *)
(* ===================================================================== *)

Section Loggable.

Lemma collab_frame st st' :
  tracer st' = tracer st → span_ops st' = span_ops st →
  _start_span_cb (self st') = _start_span_cb (self st) →
  collaborators_raise_loggable st → collaborators_raise_loggable st'.
Proof.
  intros Ht Ho Hc H. unfold collaborators_raise_loggable.
  rewrite Ht, Ho, Hc. exact H.
Qed.

Lemma rol_ret {A} (a : A) : raises_only_loggable (ret a).
Proof. intros st H. by split. Qed.

Lemma rol_raise {A} e : loggable e → raises_only_loggable (@raise A e).
Proof. intros He st H. split; [done|]. by intros e' [= <-]. Qed.

Lemma rol_bind {A B} (c : M A) (k : A → M B) :
  raises_only_loggable c → (∀ a, raises_only_loggable (k a)) →
  raises_only_loggable (bind c k).
Proof.
  intros Hc Hk st H. unfold bind. destruct (Hc st H) as [H1 He].
  destruct (c st) as [[a|e] st1]; simpl in *; [by apply Hk|].
  split; [done|]. intros e' [= <-]. by apply He.
Qed.

Lemma rol_try_except {A} (body : M A) catches handler :
  raises_only_loggable body → (∀ e, raises_only_loggable (handler e)) →
  raises_only_loggable (try_except body catches handler).
Proof.
  intros Hb Hh st H. unfold try_except. destruct (Hb st H) as [H1 He].
  destruct (body st) as [[a|e] st1]; simpl in *; [by split|].
  destruct (catches e); [by apply Hh|].
  split; [done|]. intros e' [= <-]. by apply He.
Qed.

Lemma rol_for_each {A} (xs : list A) (body : A → M unit) :
  (∀ x, raises_only_loggable (body x)) →
  raises_only_loggable (for_each xs body).
Proof.
  intros Hb. induction xs as [|x xs IH]; simpl.
  - apply rol_ret.
  - apply rol_bind; [apply Hb|done].
Qed.

Lemma rol_extract h : raises_only_loggable (tracer_extract h).
Proof.
  intros st H. split; [by apply (collab_frame st)|].
  destruct H as (He & _). apply He.
Qed.

Lemma rol_start n p : raises_only_loggable (tracer_start_active_span n p).
Proof.
  intros st H. split; [by apply (collab_frame st)|].
  destruct H as (_ & He & _). apply He.
Qed.

Lemma rol_inject sc h : raises_only_loggable (tracer_inject sc h).
Proof.
  intros st H. split; [by apply (collab_frame st)|].
  destruct H as (_ & _ & He & _). apply He.
Qed.

Lemma rol_set_tag sp k v : raises_only_loggable (span_set_tag sp k v).
Proof.
  intros st H. split; [by apply (collab_frame st)|].
  destruct H as (_ & _ & _ & He & _). apply He.
Qed.

Lemma rol_log_kv sp kv : raises_only_loggable (span_log_kv sp kv).
Proof.
  intros st H. split; [by apply (collab_frame st)|].
  destruct H as (_ & _ & _ & _ & He & _). apply He.
Qed.

Lemma rol_close sc : raises_only_loggable (scope_close sc).
Proof.
  intros st H. split; [by apply (collab_frame st)|].
  destruct H as (_ & _ & _ & _ & _ & He & _). apply He.
Qed.

Lemma rol_view_name v : raises_only_loggable (view_name v).
Proof.
  unfold view_name. destruct (__name__ v); [apply rol_ret|].
  by apply rol_raise.
Qed.

Lemma rol_push_scope request scope :
  raises_only_loggable (push_scope request scope).
Proof. intros st H. split; [by apply (collab_frame st)|done]. Qed.

Lemma rol_pop_scope request : raises_only_loggable (pop_scope request).
Proof.
  intros st H. unfold pop_scope.
  destruct (_current_scopes (self st) !! request_key request) as [l|];
    [destruct (last l)|]; simpl.
  - split; [by apply (collab_frame st)|done].
  - split; [done|]. by intros e [= <-].
  - split; [done|]. by intros e [= <-].
Qed.

Lemma rol_free_if_empty request :
  raises_only_loggable (free_if_empty request).
Proof.
  intros st H. unfold free_if_empty.
  destruct (_current_scopes (self st) !! request_key request) as [[|s l]|];
    simpl.
  - split; [by apply (collab_frame st)|done].
  - by split.
  - split; [done|]. by intros e [= <-].
Qed.

(** Among such collaborators the callback wrapper does not raise. *)
Lemma rol_call_start_span_cb sp request :
  raises_only_loggable (_call_start_span_cb sp request).
Proof.
  intros st H. split.
  - destruct (external_call_start_span_cb sp request st)
      as (Hs & Hg & Ho & _).
    apply (collab_frame st); [|done|by rewrite Hs|done].
    unfold tracer. by rewrite Hs, Hg.
  - intros e He.
    destruct (call_start_span_cb_result sp request st)
      as [Hok|(f & e' & Hcb & Hf & Hne & _)]; [congruence|].
    destruct H as (_ & _ & _ & _ & _ & _ & Hcbs).
    rewrite (Hcbs f _ _ _ _ Hcb Hf) in Hne. done.
Qed.

Lemma rol_apply_tracing_try request view_func attributes :
  raises_only_loggable (_apply_tracing_try request view_func attributes).
Proof.
  rewrite apply_tracing_try_unfold.
  apply rol_bind; [apply rol_view_name|intros n].
  apply rol_bind.
  { apply rol_try_except.
    - apply rol_bind; [apply rol_extract|intros ?; apply rol_start].
    - intros _. apply rol_bind; [apply rol_start|intros sc].
      apply rol_bind; [apply rol_inject|intros ?; apply rol_ret]. }
  intros sc. apply rol_bind; [apply rol_push_scope|intros _].
  unfold tag_new_span.
  do 4 (apply rol_bind; [apply rol_set_tag|intros _]).
  apply rol_bind.
  - apply rol_for_each. intros attr.
    destruct (getattr_str request attr) as [payload|]; [|apply rol_ret].
    destruct (String.eqb payload ""); [apply rol_ret|apply rol_set_tag].
  - intros _. apply rol_bind; [apply rol_call_start_span_cb|].
    intros _. apply rol_ret.
Qed.

Lemma rol_finish_tracing_try request response error :
  raises_only_loggable (_finish_tracing_try request response error).
Proof.
  intros st H. rewrite finish_tracing_try_unfold.
  destruct (_current_scopes (self st) !! request_key request); [|by split].
  revert st H.
  change (raises_only_loggable
            (scope <- pop_scope request ;;
             free_if_empty request ;;
             record_outcome scope response error)).
  apply rol_bind; [apply rol_pop_scope|intros sc].
  apply rol_bind; [apply rol_free_if_empty|intros _].
  unfold record_outcome. apply rol_bind.
  - destruct error; [|apply rol_ret].
    apply rol_bind; [apply rol_set_tag|intros _; apply rol_log_kv].
  - intros _. apply rol_bind; [|intros _; apply rol_close].
    destruct response; [apply rol_set_tag|apply rol_ret].
Qed.

End Loggable.

(** C2, amended.  Let the tracer in use and the span objects raise nothing
    but instances of [Exception] whose [str()] returns, and the callback
    nothing but instances of [Exception].  Then begin and end return without
    raising: when the [try] suite of either raises [exc], the function
    returns ([None] for begin) after one [logging.error] line carrying
    [str(exc)], and otherwise it returns what the suite returned.  The
    callback wrapper returns normally as well, and leaves the tracker and the
    log as they were. *)
Theorem tracing_failure_policy (request : Request) (view_func : ViewFunc)
    (attributes : list string) (response : option Response)
    (error : option exn) (sp : Span) (st : State) :
  collaborators_raise_loggable st →
  is_raise (_apply_tracing request view_func attributes st).1 = false ∧
  is_raise (_finish_tracing request response error st).1 = false ∧
  match _apply_tracing_try request view_func attributes st with
  | (Ok o, st1) =>
      _apply_tracing request view_func attributes st = (Ok o, st1)
  | (Raise exc, st1) =>
      ∃ msg, str_of exc = Ok msg ∧
        _apply_tracing request view_func attributes st =
        (Ok None,
         with_logged ("Exception during apply tracing: " ++ msg) st1)
  end ∧
  match _finish_tracing_try request response error st with
  | (Ok u, st1) =>
      _finish_tracing request response error st = (Ok u, st1)
  | (Raise exc, st1) =>
      ∃ msg, str_of exc = Ok msg ∧
        _finish_tracing request response error st =
        (Ok tt,
         with_logged ("Exception during finish tracing: " ++ msg) st1)
  end ∧
  (_call_start_span_cb sp request st).1 = Ok tt ∧
  untouched st (_call_start_span_cb sp request st).2.
Proof.
  intros H.
  assert (Hbegin :
    match _apply_tracing_try request view_func attributes st with
    | (Ok o, st1) =>
        _apply_tracing request view_func attributes st = (Ok o, st1)
    | (Raise exc, st1) =>
        ∃ msg, str_of exc = Ok msg ∧
          _apply_tracing request view_func attributes st =
          (Ok None,
           with_logged ("Exception during apply tracing: " ++ msg) st1)
    end).
  { unfold _apply_tracing. rewrite try_except_str_cases.
    destruct (rol_apply_tracing_try request view_func attributes st H)
      as [_ He].
    destruct (_apply_tracing_try request view_func attributes st)
      as [[o|exc] st1]; [done|].
    destruct (He exc eq_refl) as [-> Hstr].
    destruct (str_of exc) as [msg|]; [|done]. by exists msg. }
  assert (Hend :
    match _finish_tracing_try request response error st with
    | (Ok u, st1) =>
        _finish_tracing request response error st = (Ok u, st1)
    | (Raise exc, st1) =>
        ∃ msg, str_of exc = Ok msg ∧
          _finish_tracing request response error st =
          (Ok tt,
           with_logged ("Exception during finish tracing: " ++ msg) st1)
    end).
  { unfold _finish_tracing. rewrite try_except_str_cases.
    destruct (rol_finish_tracing_try request response error st H)
      as [_ He].
    destruct (_finish_tracing_try request response error st)
      as [[u|exc] st1]; [done|].
    destruct (He exc eq_refl) as [-> Hstr].
    destruct (str_of exc) as [msg|]; [|done]. by exists msg. }
  split_and!; try done.
  - destruct (_apply_tracing_try request view_func attributes st)
      as [[o|exc] st1]; [by rewrite Hbegin|].
    destruct Hbegin as (msg & _ & ->). done.
  - destruct (_finish_tracing_try request response error st)
      as [[u|exc] st1]; [by rewrite Hend|].
    destruct Hend as (msg & _ & ->). done.
  - destruct (rol_call_start_span_cb sp request st H) as [_ He].
    destruct (_call_start_span_cb sp request st).1 as [[]|e] eqn:Hr; [done|].
    destruct (call_start_span_cb_result sp request st)
      as [Hok|(f & e' & Hcb & Hf & Hne & _)]; [congruence|].
    destruct H as (_ & _ & _ & _ & _ & _ & Hcbs).
    rewrite (Hcbs f _ _ _ _ Hcb Hf) in Hne. done.
  - apply external_call_start_span_cb.
Qed.

(** Collaborators that raise, but nothing the handlers cannot deal with:
    the reference tracer, span objects whose [set_tag] raises, and a callback
    that raises [KeyError]. *)
Lemma failing_collaborators_loggable :
  collaborators_raise_loggable
    (RefTracer.fresh_on RefTracer.ref_tracer RefTracer.failing_ops
       (Some RefTracer.raising_cb)).
Proof.
  unfold collaborators_raise_loggable, raises_loggable, loggable.
  split_and!; simpl.
  - intros h c e. unfold RefTracer.ref_extract.
    destruct (c !! RefTracer.TRACE_KEY), (c !! RefTracer.SPAN_KEY);
      by intros [= <-].
  - by intros h n p e.
  - by intros h sc c e.
  - by intros h sp k v e [= <-].
  - by intros h sp kv e.
  - by intros h sc e.
  - by intros f h sp request e [= <-] [= <-].
Defined.

(** C2 as first stated fails for what the [except Exception] clauses do not
    take.  A callback that calls [sys.exit] makes begin raise [SystemExit]
    to its caller; a [close] interrupted from the keyboard makes end raise
    [KeyboardInterrupt]; and when the tracer raises an exception whose
    [__str__] raises, the handler of begin raises in turn. *)
Lemma begin_and_end_let_exceptions_through :
  (_apply_tracing RefTracer.reqB RefTracer.viewFoo []
     (RefTracer.fresh (Some RefTracer.exiting_cb))).1 =
    Raise (Exc SystemExit "0") ∧
  (_finish_tracing RefTracer.reqB None None
     (_apply_tracing RefTracer.reqB RefTracer.viewFoo []
        (RefTracer.fresh_on RefTracer.ref_tracer RefTracer.interrupted_ops
           None)).2).1 =
    Raise (Exc KeyboardInterrupt "") ∧
  (_apply_tracing RefTracer.reqB RefTracer.viewFoo []
     (RefTracer.fresh_on RefTracer.unprintable_tracer RefTracer.ops None)).1 =
    Raise (Exc (OtherException "RuntimeError") "str failed").
Proof. split_and!; vm_compute; reflexivity. Qed.

(** The failure policy at work on the reference tracer. *)
Section FailureExamples.

Import RefTracer.

(** The tracer cannot start a span: begin logs and returns [None], nothing is
    recorded for the request. *)
Example begin_when_tracer_is_down :
  let out := _apply_tracing reqB viewFoo [] (fresh_on broken_tracer ops None) in
  out.1 = Ok None ∧ _current_scopes (self out.2) = ∅ ∧
  logged out.2 = ["Exception during apply tracing: tracer is down"].
Proof. cbv zeta. split_and!; vm_compute; reflexivity. Qed.

(** The callback raises: begin returns its scope and logs nothing. *)
Example begin_when_callback_raises :
  let out := _apply_tracing reqB viewFoo [] (fresh (Some raising_cb)) in
  out.1 = Ok (Some scope0) ∧ logged out.2 = [] ∧
  last (calls out.2) = Some (CStartSpanCb (mkSpan 0) 2).
Proof. cbv zeta. split_and!; vm_compute; reflexivity. Qed.

(** [set_tag] raises: begin has recorded the scope before tagging it, and
    returns [None]; the end call that follows takes the scope off the stack,
    fails on its first [set_tag] and does not reach [close]. *)
Example end_when_set_tag_raises :
  let out1 := _apply_tracing reqB viewFoo []
                (fresh_on ref_tracer failing_ops None) in
  let out2 := _finish_tracing reqB None (Some (Exc ValueError "bad"))
                out1.2 in
  out1.1 = Ok None ∧
  stack_of (self out1.2) 2 = [scope0] ∧
  out2.1 = Ok tt ∧
  _current_scopes (self out2.2) = ∅ ∧
  drop (length (calls out1.2)) (calls out2.2) =
    [CSetTag (mkSpan 0) "error" (VBool true)] ∧
  logged out2.2 =
    ["Exception during apply tracing: span is read-only";
     "Exception during finish tracing: span is read-only"].
Proof. cbv zeta. split_and!; vm_compute; reflexivity. Qed.

End FailureExamples.

(* ===================================================================== *)
(** ** The decorator *)
(* ===================================================================== *)

(** The wrapper, statement by statement. *)
Lemma trace_unfold view attributes view_func request st :
  trace view attributes view_func request st =
  if _trace_all (self st) && view then call_view view_func request st
  else
    match _apply_tracing request view_func attributes st with
    | (Ok _, st1) =>
        match call_view view_func request st1 with
        | (Ok r, st2) => after_end (_finish_tracing request r None st2) (Ok r)
        | (Raise exc, st2) =>
            if is_Exception exc
            then after_end (_finish_tracing request None (Some exc) st2)
                   (Raise exc)
            else (Raise exc, st2)
        end
    | (Raise exc, st1) =>
        if is_Exception exc
        then after_end (_finish_tracing request None (Some exc) st1)
               (Raise exc)
        else (Raise exc, st1)
    end.
Proof.
  unfold trace. destruct (_trace_all (self st) && view); [done|].
  unfold try_except, Exception, bind at 1 2 3, after_end, raise, ret.
  destruct (_apply_tracing request view_func attributes st) as [[o|e0] st1].
  - destruct (call_view view_func request st1) as [[r|exc] st2].
    + unfold bind. by destruct (_finish_tracing request r None st2) as [[u|e] st3].
    + destruct (is_Exception exc); [|done]. unfold bind.
      by destruct (_finish_tracing request None (Some exc) st2) as [[u|e] st3].
  - destruct (is_Exception e0); [|done]. unfold bind.
    by destruct (_finish_tracing request None (Some e0) st1) as [[u|e] st3].
Qed.

(** C3, amended.  The wrapper built by [trace(view, *attributes)]: with
    [_trace_all] set and [view] true it is the view function itself.
    Otherwise it runs begin and then the view function.  When the view
    function returns, it runs end with the returned value and returns that
    value.  When the view function raises an instance of [Exception], it runs
    end with that exception and raises it again.  When the view function
    raises anything else, that object goes through the wrapper and no end
    call is made.  (Should begin or the end call itself raise, that is what
    the wrapper raises.) *)
Theorem trace_wrapper (view : bool) (attributes : list string)
    (view_func : ViewFunc) (request : Request) (st : State) :
  if _trace_all (self st) && view
  then trace view attributes view_func request st =
       call_view view_func request st
  else
    match _apply_tracing request view_func attributes st with
    | (Ok _, st1) =>
        match call_view view_func request st1 with
        | (Ok r, st2) =>
            trace view attributes view_func request st =
            after_end (_finish_tracing request r None st2) (Ok r)
        | (Raise exc, st2) =>
            trace view attributes view_func request st =
            if is_Exception exc
            then after_end (_finish_tracing request None (Some exc) st2)
                   (Raise exc)
            else (Raise exc, st2)
        end
    | (Raise exc, st1) =>
        trace view attributes view_func request st =
        if is_Exception exc
        then after_end (_finish_tracing request None (Some exc) st1)
               (Raise exc)
        else (Raise exc, st1)
    end.
Proof.
  rewrite trace_unfold.
  destruct (_trace_all (self st) && view); [done|].
  destruct (_apply_tracing request view_func attributes st) as [[o|e0] st1];
    [|done].
  by destruct (call_view view_func request st1) as [[r|exc] st2].
Qed.

(** C3 as first stated fails for a view function that raises something
    that is not an [Exception]: interrupted from the keyboard, the wrapper
    raises [KeyboardInterrupt] without an end call, so that no call follows
    those of begin and the scope stays recorded for the request. *)
Lemma interrupted_view_gets_no_end_call :
  let begun := _apply_tracing RefTracer.reqB RefTracer.viewInterrupt []
                 (RefTracer.fresh None) in
  let out := trace true [] RefTracer.viewInterrupt RefTracer.reqB
               (RefTracer.fresh None) in
  out.1 = Raise (Exc KeyboardInterrupt "") ∧
  calls out.2 = calls begun.2 ∧
  stack_of (self out.2) (request_key RefTracer.reqB) = [RefTracer.scope0] ∧
  out.2 ≠ (_finish_tracing RefTracer.reqB None
             (Some (Exc KeyboardInterrupt "")) begun.2).2.
Proof.
  cbv zeta. split_and!; try (vm_compute; reflexivity).
  intros H. apply (f_equal (fun s => length (calls s))) in H.
  vm_compute in H. discriminate.
Qed.

Section Stacks.

Lemma stack_of_pushed request sc this k :
  stack_of (pushed request sc this) k =
  if decide (k = request_key request) then (stack_of this k ++ [sc])%list
  else stack_of this k.
Proof.
  unfold stack_of, pushed. simpl. case_decide as Hk.
  - subst k. by rewrite lookup_insert_eq.
  - by rewrite lookup_insert_ne.
Qed.

Lemma stack_of_popped request this k :
  stack_of (popped request this) k =
  if decide (k = request_key request) then removelast (stack_of this k)
  else stack_of this k.
Proof.
  unfold popped. set (l := removelast _).
  unfold stack_of at 1. simpl. case_decide as Hk.
  - subst k. fold l. destruct l.
    + by rewrite lookup_delete_eq.
    + by rewrite lookup_insert_eq.
  - destruct l.
    + by rewrite lookup_delete_ne.
    + by rewrite lookup_insert_ne.
Qed.

Lemma no_empty_stack_pushed request sc this :
  no_empty_stack this → no_empty_stack (pushed request sc this).
Proof.
  intros Hinv k l. unfold pushed. simpl.
  destruct (decide (k = request_key request)) as [->|Hk].
  - rewrite lookup_insert_eq. intros [= <-]. by destruct (stack_of this _).
  - rewrite lookup_insert_ne by done. apply Hinv.
Qed.

Lemma no_empty_stack_popped request this :
  no_empty_stack this → no_empty_stack (popped request this).
Proof.
  intros Hinv k l. unfold popped.
  destruct (removelast _) as [|s0 l0] eqn:Hl; simpl.
  - destruct (decide (k = request_key request)) as [->|Hk].
    + by rewrite lookup_delete_eq.
    + rewrite lookup_delete_ne by done. apply Hinv.
  - destruct (decide (k = request_key request)) as [->|Hk].
    + rewrite lookup_insert_eq. by intros [= <-].
    + rewrite lookup_insert_ne by done. apply Hinv.
Qed.

(** What one call may do to the tracker. *)
Lemma run_op_self o st :
  match o with
  | Begin request _ _ =>
      self (run_op o st) = self st ∨
      ∃ sc, self (run_op o st) = pushed request sc (self st)
  | End request _ _ =>
      (self (run_op o st) = self st ∧
       stack_of (self st) (request_key request) = []) ∨
      (self (run_op o st) = popped request (self st) ∧
       stack_of (self st) (request_key request) ≠ [])
  end.
Proof.
  destruct o as [request view_func attributes|request response error]; simpl.
  - destruct (_apply_tracing request view_func attributes st) as [r st'] eqn:H.
    apply apply_tracing_cases in H
      as (_ & _ & [(sc & _ & Hs & _)|[(msg & _ & _ & [Hs|(sc & Hs)])|
                                       (_ & _ & [Hs|(sc & Hs)])]]);
      simpl; eauto.
  - destruct (_finish_tracing request response error st) as [r st'] eqn:H.
    apply finish_tracing_cases in H
      as (_ & _ & [(Hk & _ & ->)|[(Hk & _ & Hs & _)|(l & sc & Hk & Hs & _)]]);
      simpl; unfold stack_of; rewrite Hk; simpl.
    + by left.
    + by left.
    + right. split; [done|]. by destruct l.
Qed.

Lemma run_op_no_empty_stack o st :
  no_empty_stack (self st) → no_empty_stack (self (run_op o st)).
Proof.
  intros Hinv. pose proof (run_op_self o st) as H.
  destruct o; destruct H as [H|H].
  - by rewrite H.
  - destruct H as (sc & ->). by apply no_empty_stack_pushed.
  - destruct H as [-> _]. done.
  - destruct H as [-> _]. by apply no_empty_stack_popped.
Qed.

Lemma run_ops_no_empty_stack ops st :
  no_empty_stack (self st) → no_empty_stack (self (run_ops ops st)).
Proof.
  revert st. induction ops as [|o ops IH]; intros st Hinv; [done|].
  simpl. apply IH. by apply run_op_no_empty_stack.
Qed.

(** End takes the last scope off the stack of its request, and nothing else. *)
Lemma finish_tracing_stack request response error st k :
  stack_of (self (_finish_tracing request response error st).2) k =
  if decide (k = request_key request) then removelast (stack_of (self st) k)
  else stack_of (self st) k.
Proof.
  pose proof (run_op_self (End request response error) st) as [[Hs He]|[Hs _]];
    simpl in Hs; rewrite Hs.
  - case_decide; [subst k; by rewrite He|done].
  - apply stack_of_popped.
Qed.

End Stacks.

(** C5.  Start from a tracker just built by the constructor and make any
    run of begin and end calls, on any requests: no key of [_current_scopes]
    is bound to an empty list, and an end call on a request with one scope
    left removes the request's key from the mapping. *)
Theorem no_empty_stack_persists (tracer : option Tracer)
    (start_span_cb : option pyobj) (this : DjangoTracing) (g : Globals)
    (so : SpanOps) (ops : list Op) :
  __init__ tracer start_span_cb = Ok this →
  let st := run_ops ops {| self := this; globals := g; span_ops := so;
                           calls := []; logged := [] |} in
  no_empty_stack (self st) ∧
  ∀ request response error sc,
    stack_of (self st) (request_key request) = [sc] →
    _current_scopes (self (_finish_tracing request response error st).2)
      !! request_key request = None.
Proof.
  intros Hinit st.
  assert (Hinv : no_empty_stack (self st)).
  { apply run_ops_no_empty_stack. simpl.
    apply init_ok_fields in Hinit as (Hempty & _).
    intros k l. by rewrite Hempty, lookup_empty. }
  split; [done|].
  intros request response error sc Hone.
  pose proof (run_op_self (End request response error) st) as [[_ He]|[Hs _]].
  - by rewrite Hone in He.
  - simpl in Hs. rewrite Hs. unfold popped. rewrite Hone. simpl.
    apply lookup_delete_eq.
Qed.



Section Lifo.

Lemma begins_stack request bs st scs :
  (begins request bs st).1 = Some <$> scs →
  stack_of (self (begins request bs st).2) (request_key request) =
  (stack_of (self st) (request_key request) ++ scs)%list.
Proof.
  revert st scs. induction bs as [|b bs IH]; intros st scs; simpl.
  - destruct scs; [|done]. by rewrite app_nil_r.
  - destruct (_apply_tracing request b.1 b.2 st) as [r st1] eqn:Hb.
    specialize (IH st1).
    destruct (begins request bs st1) as [rs st2]. simpl in *.
    destruct scs as [|sc scs]; [done|]. simpl. intros [= Hr Hrs].
    rewrite (IH scs Hrs).
    apply apply_tracing_cases in Hb
      as (_ & _ & [(sc' & -> & Hs & _)|[(msg & -> & _)|(Hr' & _)]]);
      [|done|by destruct r].
    injection Hr as ->. rewrite Hs, stack_of_pushed.
    rewrite decide_True by done. by rewrite <- app_assoc.
Qed.

Lemma ends_stack request es st :
  stack_of (self (ends request es st)) (request_key request) =
  take (length (stack_of (self st) (request_key request)) - length es)
       (stack_of (self st) (request_key request)).
Proof.
  unfold ends. revert st. induction es as [|e es IH]; intros st; simpl.
  - rewrite Nat.sub_0_r. by rewrite firstn_all.
  - rewrite IH. rewrite finish_tracing_stack.
    rewrite decide_True by done.
    set (l := stack_of (self st) (request_key request)).
    rewrite removelast_firstn_len, take_take, length_take.
    f_equal. lia.
Qed.

Lemma ends_snoc request es e st :
  ends request (es ++ [e]) st =
  (_finish_tracing request e.1 e.2 (ends request es st)).2.
Proof. unfold ends. by rewrite foldl_app. Qed.

End Lifo.

Section Outcome.

Lemma record_outcome_returns scope response error st :
  span_ops_return (span_ops st) →
  ∃ st', record_outcome scope response error st = (Ok tt, st') ∧
         (self st' = self st ∧ globals st' = globals st ∧
          span_ops st' = span_ops st ∧ logged st' = logged st) ∧
         calls st' = (calls st ++ spec_end_calls scope response error)%list.
Proof.
  intros (Htag & Hlog & Hclose).
  unfold record_outcome, spec_end_calls, bind, span_set_tag, span_log_kv,
    scope_close, ret.
  destruct error as [e|], response as [r|]; simpl;
    rewrite ?Htag, ?Hlog, ?Hclose; simpl;
    rewrite ?Htag, ?Hlog, ?Hclose; simpl;
    rewrite ?Htag, ?Hlog, ?Hclose; simpl;
    eexists; (split; [reflexivity|]); simpl;
    (split; [done|]);
    by rewrite <- ?app_assoc.
Qed.

(** End on a request that has a scope, with span methods that return. *)
Lemma finish_tracing_returns request response error st l sc :
  _current_scopes (self st) !! request_key request = Some (l ++ [sc])%list →
  span_ops_return (span_ops st) →
  ∃ st', _finish_tracing request response error st = (Ok tt, st') ∧
         self st' = popped request (self st) ∧
         globals st' = globals st ∧ span_ops st' = span_ops st ∧
         logged st' = logged st ∧
         calls st' = (calls st ++ spec_end_calls sc response error)%list.
Proof.
  intros Hk Hops.
  destruct (pop_then_free request st l sc Hk)
    as (st1 & Hpop & st2 & Hfree & Hs & Hg & Ho & Hlog & Hc).
  rewrite <- Ho in Hops.
  destruct (record_outcome_returns sc response error st2 Hops)
    as (st3 & Hrec & (Hs3 & Hg3 & Ho3 & Hl3) & Hc3).
  exists st3. split.
  - unfold _finish_tracing, try_except. rewrite finish_tracing_try_unfold, Hk.
    unfold bind at 1. rewrite Hpop. unfold bind at 1. by rewrite Hfree, Hrec.
  - split_and!; congruence.
Qed.

Lemma stack_of_snoc_lookup this k l sc :
  stack_of this k = (l ++ [sc])%list →
  _current_scopes this !! k = Some (l ++ [sc])%list.
Proof.
  unfold stack_of. destruct (_current_scopes this !! k); simpl.
  - by intros ->.
  - by destruct l.
Qed.

Lemma begins_span_ops request bs st :
  span_ops (begins request bs st).2 = span_ops st.
Proof.
  revert st. induction bs as [|b bs IH]; intros st; [done|]. simpl.
  destruct (_apply_tracing request b.1 b.2 st) as [r st1] eqn:Hb.
  specialize (IH st1). destruct (begins request bs st1) as [rs st2].
  simpl in *. rewrite IH.
  by apply apply_tracing_cases in Hb as (_ & ? & _).
Qed.

Lemma ends_span_ops request es st :
  span_ops (ends request es st) = span_ops st.
Proof.
  unfold ends. revert st. induction es as [|e es IH]; intros st; [done|].
  simpl. rewrite IH.
  destruct (_finish_tracing request e.1 e.2 st) as [r st1] eqn:He.
  by apply finish_tracing_cases in He as (_ & ? & _).
Qed.

End Outcome.

(** C1, amended.  Let [K] begin calls on one request each return the scope
    it opened, [scs] listing these scopes in order.  Then the stack of the
    request has grown by exactly [scs], one scope per begin; and for
    [1 ≤ N ≤ K] the [N]th end call that follows takes exactly one scope from
    the end of the stack, which is the scope opened by the [(K-N+1)]th begin
    (item [K-N] of [scs], counting from 0); with span methods that return,
    the last thing that end call does is to close this scope. *)
Theorem begin_end_lifo (request : Request)
    (bs : list (ViewFunc * list string))
    (es : list (option Response * option exn)) (scs : list Scope)
    (st : State) (N : nat) :
  (begins request bs st).1 = Some <$> scs →
  (1 ≤ N ≤ length scs)%nat →
  (N ≤ length es)%nat →
  let k := request_key request in
  let st1 := (begins request bs st).2 in
  length scs = length bs ∧
  stack_of (self st1) k = (stack_of (self st) k ++ scs)%list ∧
  ∃ sc,
    scs !! (length scs - N) = Some sc ∧
    stack_of (self (ends request (take (N - 1) es) st1)) k =
      (stack_of (self st) k ++ take (length scs - N) scs ++ [sc])%list ∧
    stack_of (self (ends request (take N es) st1)) k =
      (stack_of (self st) k ++ take (length scs - N) scs)%list ∧
    (span_ops_return (span_ops st) →
     last (calls (ends request (take N es) st1)) = Some (CClose sc)).
Proof.
  intros Hopen HN Hes k st1.
  pose proof (begins_stack request bs st scs Hopen) as Hstack.
  fold k st1 in Hstack.
  split_and!; [|done|].
  - assert (Hlen : ∀ bs st, length (begins request bs st).1 = length bs).
    { clear. induction bs as [|b bs IH]; intros st; [done|]. simpl.
      destruct (_apply_tracing request b.1 b.2 st) as [r st1].
      specialize (IH st1). destruct (begins request bs st1). simpl in *.
      by rewrite IH. }
    rewrite <- (Hlen bs st), Hopen. by rewrite length_fmap.
  - destruct (lookup_lt_is_Some_2 scs (length scs - N)) as [sc Hsc]; [lia|].
    exists sc. split; [done|].
    assert (Hends : ∀ n, (n ≤ length scs)%nat → (n ≤ length es)%nat →
              stack_of (self (ends request (take n es) st1)) k =
              (stack_of (self st) k ++ take (length scs - n) scs)%list).
    { intros n Hn Hn'. subst k. rewrite ends_stack. fold st1.
      rewrite Hstack, length_app, length_take.
      rewrite take_app_ge by lia. f_equal. f_equal. lia. }
    assert (Hbefore :
              stack_of (self (ends request (take (N - 1) es) st1)) k =
              (stack_of (self st) k ++ take (length scs - N) scs ++ [sc])%list).
    { rewrite Hends by lia. f_equal.
      replace (length scs - (N - 1)) with (S (length scs - N)) by lia.
      by apply take_S_r. }
    split_and!; [done|apply Hends; lia|].
    intros Hops.
    destruct (lookup_lt_is_Some_2 es (N - 1)) as [e He]; [lia|].
    replace N with (S (N - 1)) at 1 by lia.
    rewrite (take_S_r _ _ _ He), ends_snoc.
    rewrite app_assoc in Hbefore. apply stack_of_snoc_lookup in Hbefore.
    edestruct (finish_tracing_returns request e.1 e.2 _ _ _ Hbefore)
      as (st' & -> & _ & _ & _ & _ & Hc).
    { rewrite ends_span_ops. subst st1. by rewrite begins_span_ops. }
    simpl. rewrite Hc. unfold spec_end_calls. by rewrite !app_assoc, last_snoc.
Qed.

(** A begin call never records more than one scope, and records none for
    other requests. *)
Lemma begin_pushes_at_most_one request view_func attributes st k :
  let st' := (_apply_tracing request view_func attributes st).2 in
  stack_of (self st') k = stack_of (self st) k ∨
  (k = request_key request ∧
   ∃ sc, stack_of (self st') k = (stack_of (self st) k ++ [sc])%list).
Proof.
  cbv zeta.
  pose proof (run_op_self (Begin request view_func attributes) st)
    as [H|(sc & H)]; simpl in H; rewrite H; [by left|].
  rewrite stack_of_pushed. case_decide; [right; eauto|by left].
Qed.

(** C1 as first stated fails where a begin call does not get as far as the
    push.  On [reqB], whose headers carry a trace context, a first begin
    for [viewFoo] records [scope0]; a nested begin for a view function
    without [__name__] raises inside its [try] suite, returns [None] and
    records nothing; the end call that follows then takes [scope0], the
    scope opened by the first of the two begins, and closes it. *)
Lemma begin_without_name_pushes_nothing :
  let k := request_key RefTracer.reqB in
  let st1 := (_apply_tracing RefTracer.reqB RefTracer.viewFoo []
                (RefTracer.fresh None)).2 in
  let out2 := _apply_tracing RefTracer.reqB RefTracer.partialView [] st1 in
  let st3 := (_finish_tracing RefTracer.reqB (Some (mkResponse 200)) None
                out2.2).2 in
  stack_of (self st1) k = [RefTracer.scope0] ∧
  out2.1 = Ok None ∧
  stack_of (self out2.2) k = [RefTracer.scope0] ∧
  length (stack_of (self out2.2) k) ≠ S (length (stack_of (self st1) k)) ∧
  stack_of (self st3) k = [] ∧
  last (calls st3) = Some (CClose RefTracer.scope0).
Proof.
  cbv zeta. split_and!; try (vm_compute; reflexivity).
  vm_compute. discriminate.
Qed.

(** C7, amended.  An end call on a request whose stack ends in [sc], with
    span methods that return: beyond the calls made before, the calls are, in
    this order, [set_tag('error', True)] and
    [log_kv({'event': 'error', 'error.object': error})] on the span of [sc]
    when [error] is given, [set_tag('http.status_code', response.status_code)]
    on it when [response] is given, and [close()] on [sc], whichever of
    [error] and [response] are given; [sc] is off the stack and nothing is
    logged. *)
Theorem finish_tracing_tags_and_closes (request : Request)
    (response : option Response) (error : option exn) (st : State)
    (l : list Scope) (sc : Scope) :
  _current_scopes (self st) !! request_key request = Some (l ++ [sc])%list →
  span_ops_return (span_ops st) →
  let st' := (_finish_tracing request response error st).2 in
  calls st' = (calls st ++ spec_end_calls sc response error)%list ∧
  last (calls st') = Some (CClose sc) ∧
  stack_of (self st') (request_key request) = l ∧
  logged st' = logged st.
Proof.
  intros Hk Hops.
  destruct (finish_tracing_returns request response error st l sc Hk Hops)
    as (st1 & -> & Hs & _ & _ & Hl & Hc).
  simpl. split_and!; try done.
  - rewrite Hc. unfold spec_end_calls. by rewrite !app_assoc, last_snoc.
  - rewrite Hs, stack_of_popped, decide_True by done.
    unfold stack_of. rewrite Hk. simpl. apply removelast_last.
Qed.

(** C7 as first stated fails when a span method raises.  After a begin on
    [reqB] that returned [scope0], an end call with an error takes [scope0]
    off the stack and sets the error tag; [log_kv] raises; the handler logs
    the exception and end returns: no further call is made and [scope0] is
    never closed. *)
Lemma end_without_close :
  let begun := _apply_tracing RefTracer.reqB RefTracer.viewFoo []
                 (RefTracer.fresh_on RefTracer.ref_tracer
                    RefTracer.unloggable_ops None) in
  let error := Exc (OtherException "Http404") "not found" in
  let out := _finish_tracing RefTracer.reqB None (Some error) begun.2 in
  begun.1 = Ok (Some RefTracer.scope0) ∧
  stack_of (self begun.2) (request_key RefTracer.reqB) = [RefTracer.scope0] ∧
  out.1 = Ok tt ∧
  stack_of (self out.2) (request_key RefTracer.reqB) = [] ∧
  calls out.2 =
    (calls begun.2 ++
     [CSetTag (mkSpan 0) "error" (VBool true);
      CLogKv (mkSpan 0) [("event", LStr "error"); ("error.object", LExc error)]])%list ∧
  Forall (fun c => c ≠ CClose RefTracer.scope0) (calls out.2) ∧
  logged out.2 = ["Exception during finish tracing: cannot serialize"].
Proof.
  cbv zeta. split_and!; try (vm_compute; reflexivity).
  vm_compute. repeat constructor; discriminate.
Qed.

(* ===================================================================== *)
(** ** Header normalization *)
(* ===================================================================== *)

Section Headers.

Lemma replace_lower k :
  replace "_" "-" (lower k) = str_map spec_key_char k.
Proof.
  unfold replace, lower. induction k as [|c k IH]; [done|].
  simpl. rewrite IH. f_equal.
  destruct c as [[] [] [] [] [] [] [] []]; reflexivity.
Qed.

Lemma startswith_spec p s :
  startswith p s = true ↔ ∃ rest, s = (p ++ rest)%string.
Proof.
  revert s. induction p as [|a p IH]; intros s; simpl.
  - split; [by exists s|done].
  - destruct s as [|b s].
    + split; [done|]. by intros (rest & ?).
    + rewrite andb_true_iff, IH. destruct (Ascii.eqb_spec a b) as [<-|Hne].
      * split.
        -- intros (_ & rest & ->). by exists rest.
        -- intros (rest & [= ->]). split; [done|]. by exists rest.
      * split; [by intros [? _]|]. intros (rest & [= ? _]). done.
Qed.

Lemma slice_from_app p rest :
  slice_from (String.length p) (p ++ rest) = rest.
Proof. induction p as [|a p IH]; [by destruct rest|done]. Qed.

Lemma append_inj p a b : (p ++ a)%string = (p ++ b)%string → a = b.
Proof.
  induction p as [|c p IH]; intros H; [exact H|]. apply IH. by injection H.
Qed.

(** The key computed by the code against the description: the key is
    mapped character by character, and a leading "http-" of the result is
    dropped. *)
Lemma normalize_key_spec k :
  let k' := str_map spec_key_char k in
  (∀ rest, k' = ("http-" ++ rest)%string → normalize_key k = rest) ∧
  ((∀ rest, k' ≠ ("http-" ++ rest)%string) → normalize_key k = k').
Proof.
  cbv zeta. unfold normalize_key. rewrite replace_lower.
  destruct (startswith "http-" (str_map spec_key_char k)) eqn:Hp.
  - apply startswith_spec in Hp as (rest & Hrest). rewrite Hrest. split.
    + intros rest' Heq.
      apply append_inj in Heq as <-.
      apply (slice_from_app "http-").
    + intros Hno. by destruct (Hno rest).
  - split; [|done]. intros rest Hrest.
    assert (startswith "http-" (str_map spec_key_char k) = true) as Ht
      by (apply startswith_spec; eauto).
    congruence.
Qed.

Lemma fill_headers_origin meta acc k' v :
  fill_headers acc meta !! k' = Some v →
  acc !! k' = Some v ∨ ∃ k, (k, v) ∈ meta ∧ normalize_key k = k'.
Proof.
  revert acc. induction meta as [|[k0 v0] meta IH]; intros acc; simpl.
  - by left.
  - intros H. apply IH in H as [H|(k & Hin & Hk)].
    + destruct (decide (normalize_key k0 = k')) as [<-|Hne].
      * rewrite lookup_insert_eq in H. injection H as ->.
        right. exists k0. split; [apply list_elem_of_here|done].
      * rewrite lookup_insert_ne in H by done. by left.
    + right. exists k. split; [by apply list_elem_of_further|done].
Qed.

Lemma fill_headers_later meta acc k' :
  (∀ k v, (k, v) ∈ meta → normalize_key k ≠ k') →
  fill_headers acc meta !! k' = acc !! k'.
Proof.
  revert acc. induction meta as [|[k0 v0] meta IH]; intros acc Hno; [done|].
  simpl. rewrite IH.
  - apply lookup_insert_ne. apply (Hno k0 v0), list_elem_of_here.
  - intros k v Hin. apply (Hno k v). by apply list_elem_of_further.
Qed.

(** The first call of begin, when the view function has a name, is
    [extract] on the normalized headers. *)
Lemma start_span_first_call h n st :
  ∃ cs, calls (start_span_from_trace_info h n st).2 =
        (calls st ++ CExtract h :: cs)%list.
Proof.
  unfold start_span_from_trace_info, try_except, bind, tracer_extract,
    tracer_start_active_span, tracer_inject, ret.
  destruct (extract (tracer st) (calls st) h) as [ctx|e]; simpl.
  - match goal with |- context [start_active_span ?t ?c ?a ?b] =>
      destruct (start_active_span t c a b) as [sc|e] end; simpl.
    + by exists [CStartActiveSpan n (Some ctx)]; rewrite <- app_assoc.
    + destruct (carrier_errors e); simpl.
      * repeat match goal with
               | |- context [start_active_span ?t ?c ?a ?b] =>
                   destruct (start_active_span t c a b)
               | |- context [inject ?t ?c ?a ?b] =>
                   destruct (inject t c a b)
               end; simpl; rewrite <- ?app_assoc; simpl; eauto.
      * by exists [CStartActiveSpan n (Some ctx)]; rewrite <- app_assoc.
  - destruct (carrier_errors e); simpl.
    + repeat match goal with
             | |- context [start_active_span ?t ?c ?a ?b] =>
                 destruct (start_active_span t c a b)
             | |- context [inject ?t ?c ?a ?b] =>
                 destruct (inject t c a b)
             end; simpl; rewrite <- ?app_assoc; simpl; eauto.
    + by exists [].
Qed.

Lemma apply_tracing_calls request view_func attributes st :
  let st' := (_apply_tracing request view_func attributes st).2 in
  match __name__ view_func with
  | Some _ =>
      ∃ cs, calls st' =
            (calls st ++ CExtract (strip_headers (META request)) :: cs)%list
  | None => calls st' = calls st
  end.
Proof.
  cbv zeta. rewrite (proj1 (apply_tracing_frame _ _ _ _)).
  rewrite apply_tracing_try_unfold. unfold bind at 1, view_name.
  destruct (__name__ view_func) as [n|]; simpl; [|done].
  unfold bind at 1.
  destruct (start_span_first_call (strip_headers (META request)) n st)
    as (cs1 & Hc1).
  destruct (start_span_from_trace_info _ n st) as [[sc|e] st1]; simpl in Hc1.
  2:{ simpl. eauto. }
  unfold bind at 1, push_scope at 1. cbv beta iota zeta.
  match goal with |- context [tag_new_span _ _ _ ?s] => set (st2 := s) end.
  destruct (external_tag_new_span request sc attributes st2)
    as (_ & _ & _ & _ & cs2 & Hc2).
  destruct (tag_new_span request sc attributes st2) as [[o|e] st3];
    simpl in *; exists (cs1 ++ cs2)%list; rewrite Hc2, Hc1;
    by rewrite <- app_assoc.
Qed.

End Headers.

(** C8.  The carrier begin hands to [extract] (its first call, made once
    the name of the view function has been read) is built from
    [request.META] as follows.  Each key of the carrier is the key of a META
    item with every character lower-cased, underscores turned into hyphens,
    and a leading "http-" dropped from the result if there is one; its value
    is the value of that item.  Each META item is in the carrier under its
    normalized key, unless a later item has the same normalized key. *)
Theorem begin_normalizes_headers (request : Request) (view_func : ViewFunc)
    (attributes : list string) (st : State) :
  let carrier := strip_headers (META request) in
  let st' := (_apply_tracing request view_func attributes st).2 in
  match __name__ view_func with
  | Some _ => ∃ cs, calls st' = (calls st ++ CExtract carrier :: cs)%list
  | None => calls st' = calls st
  end ∧
  (∀ k' v, carrier !! k' = Some v →
     ∃ k, (k, v) ∈ META request ∧ normalize_key k = k') ∧
  (∀ before k v after,
     META request = (before ++ (k, v) :: after)%list →
     (∀ k2 v2, (k2, v2) ∈ after → normalize_key k2 ≠ normalize_key k) →
     carrier !! normalize_key k = Some v) ∧
  (∀ k, let k' := str_map spec_key_char k in
     (∀ rest, k' = ("http-" ++ rest)%string → normalize_key k = rest) ∧
     ((∀ rest, k' ≠ ("http-" ++ rest)%string) → normalize_key k = k')).
Proof.
  cbv zeta. split_and!.
  - apply apply_tracing_calls.
  - intros k' v H. apply (fill_headers_origin _ ∅) in H as [H|H]; [|done].
    by rewrite lookup_empty in H.
  - intros before k v after Hmeta Hlast. unfold strip_headers.
    rewrite Hmeta, foldl_app. simpl.
    rewrite (fill_headers_later after) by done.
    apply lookup_insert_eq.
  - apply normalize_key_spec.
Qed.

(* ===================================================================== *)
(** ** The fallback on a failed extraction *)
(* ===================================================================== *)

Section Fallback.

Import RefTracer.

(** Whatever [inject] did to the dictionary it was given, a later begin on
    the same request hands [extract] the dictionary rebuilt from
    [request.META]. *)
Lemma nested_begin_extracts_from_META request view_func attributes
    view_func' attributes' n st :
  __name__ view_func' = Some n →
  let st1 := (_apply_tracing request view_func attributes st).2 in
  let st2 := (_apply_tracing request view_func' attributes' st1).2 in
  ∃ cs, calls st2 =
        (calls st1 ++ CExtract (strip_headers (META request)) :: cs)%list.
Proof.
  intros Hn st1 st2.
  pose proof (apply_tracing_calls request view_func' attributes' st1) as H.
  by rewrite Hn in H.
Qed.

(** C4, evaluated.  [reqA] carries no trace headers and the reference tracer
    fails to extract from its carrier.  The first begin falls back to
    [start_active_span(name)] without parent, calls [inject] with the new
    scope and the carrier, and returns the scope.  [inject] did write a
    context that [extract] accepts into the dictionary it was given; but
    that dictionary is the local [headers] of this begin call.  The nested
    begin on the same request hands [extract] the very same carrier as the
    first, without the injected keys; extraction fails again and the nested
    begin takes the fallback as well. *)
Theorem injected_context_is_not_recovered :
  let out1 := _apply_tracing reqA viewFoo [] (fresh None) in
  let out2 := _apply_tracing reqA viewBar [] out1.2 in
  is_raise (extract ref_tracer [] carrierA) = true ∧
  out1.1 = Ok (Some scope0) ∧
  take 3 (calls out1.2) =
    [CExtract carrierA; CStartActiveSpan "viewFoo" None;
     CInject scope0 carrierA] ∧
  (∃ written,
     inject ref_tracer [] scope0 carrierA = Ok written ∧
     extract ref_tracer [] written = Ok (mkSpanContext "1" "0")) ∧
  out2.1 = Ok (Some scope1) ∧
  take 3 (drop (length (calls out1.2)) (calls out2.2)) =
    [CExtract carrierA; CStartActiveSpan "viewBar" None;
     CInject scope1 carrierA] ∧
  carrierA !! TRACE_KEY = None ∧ carrierA !! SPAN_KEY = None.
Proof.
  cbv zeta. split_and!; try (vm_compute; reflexivity).
  eexists. split; vm_compute; reflexivity.
Qed.

(** With a tracer whose [inject] raises on a scope, the fallback itself is
    what fails: a scope has been started, but begin returns [None], records
    nothing for the request, and logs the error. *)
Example begin_when_inject_rejects_scope :
  let out := _apply_tracing reqA viewFoo [] fresh_strict in
  out.1 = Ok None ∧
  _current_scopes (self out.2) = ∅ ∧
  calls out.2 =
    [CExtract carrierA; CStartActiveSpan "viewFoo" None;
     CInject scope0 carrierA] ∧
  logged out.2 = ["Exception during apply tracing: expecting a SpanContext"].
Proof. cbv zeta. split_and!; vm_compute; reflexivity. Qed.

(** The same in general: when the fallback's [inject] raises an exception
    that the handler can log, begin has made three calls, logged the error
    and left the tracker as it was. *)
Lemma begin_when_inject_raises request view_func attributes n st e1 sc e2
    msg :
  let h := strip_headers (META request) in
  __name__ view_func = Some n →
  extract (tracer st) (calls st) h = Raise e1 →
  carrier_errors e1 = true →
  (∀ cs, start_active_span (tracer st) cs n None = Ok sc) →
  (∀ cs, inject (tracer st) cs sc h = Raise e2) →
  is_Exception e2 = true →
  str_of e2 = Ok msg →
  _apply_tracing request view_func attributes st =
  (Ok None,
   with_logged ("Exception during apply tracing: " ++ msg)
     (with_call (CInject sc h)
        (with_call (CStartActiveSpan n None) (with_call (CExtract h) st)))).
Proof.
  intros h Hn Hex Hce Hstart Hinj He2 Hstr.
  unfold _apply_tracing. rewrite try_except_str_cases.
  rewrite apply_tracing_try_unfold. unfold bind at 1, view_name. rewrite Hn.
  simpl. unfold bind at 1.
  unfold start_span_from_trace_info, try_except, bind, tracer_extract,
    tracer_start_active_span, tracer_inject.
  fold h. rewrite Hex. simpl. rewrite Hce.
  change (tracer (with_call _ st)) with (tracer st).
  rewrite Hstart. simpl.
  change (tracer (with_call _ (with_call _ st))) with (tracer st).
  rewrite Hinj. simpl. by rewrite He2, Hstr.
Qed.

(** What does hold of the fallback: when [extract] raises one of the two
    carrier errors and the tracer then starts a span and accepts the
    injection, begin has called [start_active_span] without parent and
    [inject] with the new scope and the carrier, and has recorded the
    scope. *)
Lemma begin_falls_back_to_parentless_span request view_func attributes n st
    e1 sc written :
  let h := strip_headers (META request) in
  __name__ view_func = Some n →
  extract (tracer st) (calls st) h = Raise e1 →
  carrier_errors e1 = true →
  (∀ cs, start_active_span (tracer st) cs n None = Ok sc) →
  (∀ cs, inject (tracer st) cs sc h = Ok written) →
  let out := _apply_tracing request view_func attributes st in
  self out.2 = pushed request sc (self st) ∧
  ∃ cs, calls out.2 =
        (calls st ++
         [CExtract h; CStartActiveSpan n None; CInject sc h] ++ cs)%list.
Proof.
  intros h Hn Hex Hce Hstart Hinj out.
  assert (Hstart_span :
    start_span_from_trace_info h n st =
    (Ok sc, with_call (CInject sc h)
              (with_call (CStartActiveSpan n None)
                 (with_call (CExtract h) st)))).
  { unfold start_span_from_trace_info, try_except, bind, tracer_extract,
      tracer_start_active_span, tracer_inject.
    rewrite Hex. simpl. rewrite Hce.
    change (tracer (with_call _ st)) with (tracer st).
    rewrite Hstart. simpl.
    change (tracer (with_call _ (with_call _ st))) with (tracer st).
    by rewrite Hinj. }
  subst out.
  destruct (apply_tracing_frame request view_func attributes st) as [-> ->].
  destruct (_apply_tracing_try request view_func attributes st)
    as [r st'] eqn:H.
  simpl. revert H.
  rewrite apply_tracing_try_unfold. unfold bind at 1, view_name. rewrite Hn.
  simpl. unfold bind at 1. fold h. rewrite Hstart_span.
  unfold bind at 1, push_scope at 1. cbv beta iota zeta.
  match goal with |- context [tag_new_span _ _ _ ?s] => set (st2 := s) end.
  destruct (external_tag_new_span request sc attributes st2)
    as (Hs & _ & _ & _ & cs2 & Hc2).
  destruct (tag_new_span request sc attributes st2) as [r' st3].
  simpl in *. intros [= <- <-].
  split; [by rewrite Hs|].
  exists cs2. rewrite Hc2. subst st2. simpl. by rewrite <- !app_assoc.
Qed.

End Fallback.

(* ===================================================================== *)
(** ** The statements at concrete inputs *)
(* ===================================================================== *)

Section Instances.

Import RefTracer.

(** Begin on span objects whose [set_tag] raises, with a callback that
    raises: begin returns. *)
Lemma tracing_failure_policy_witness :
  is_raise
    (_apply_tracing reqB viewFoo []
       (fresh_on ref_tracer failing_ops (Some raising_cb))).1 = false.
Proof.
  apply (tracing_failure_policy reqB viewFoo [] None None (mkSpan 0)
           (fresh_on ref_tracer failing_ops (Some raising_cb))).
  exact failing_collaborators_loggable.
Defined.

(** Two begins on [reqA] open [scope0] and [scope1]; the first end closes
    [scope1]. *)
Lemma begin_end_lifo_witness :
  (begins reqA two_begins (fresh None)).1 = Some <$> [scope0; scope1] ∧
  ∃ sc, [scope0; scope1] !! 1%nat = Some sc ∧
        last (calls (ends reqA (take 1 two_ends)
                       (begins reqA two_begins (fresh None)).2)) =
        Some (CClose sc).
Proof.
  assert (H0 : (begins reqA two_begins (fresh None)).1 =
               Some <$> [scope0; scope1]) by (vm_compute; reflexivity).
  split; [exact H0|].
  destruct (begin_end_lifo reqA two_begins two_ends [scope0; scope1]
              (fresh None) 1 H0) as (_ & _ & sc & Hsc & _ & _ & Hclose).
  - simpl. lia.
  - simpl. lia.
  - exists sc. split; [exact Hsc|]. apply Hclose. by repeat split.
Defined.

Lemma no_empty_stack_persists_witness :
  __init__ (Some ref_tracer) None = Ok (fresh_self None) ∧
  no_empty_stack
    (self (run_ops [Begin reqA viewFoo []; Begin reqB viewBar [];
                    End reqA None None]
             (fresh None))).
Proof.
  split; [reflexivity|].
  destruct (no_empty_stack_persists (Some ref_tracer) None (fresh_self None)
              (module_globals ref_tracer) ops
              [Begin reqA viewFoo []; Begin reqB viewBar [];
               End reqA None None]) as [H _].
  - reflexivity.
  - exact H.
Defined.


Lemma finish_tracing_tags_and_closes_witness :
  _current_scopes (self after_begin) !! request_key reqA =
    Some ([] ++ [scope0])%list ∧
  calls (_finish_tracing reqA (Some (mkResponse 404)) None after_begin).2 =
    (calls after_begin ++
     [CSetTag (mkSpan 0) "http.status_code" (VInt 404); CClose scope0])%list.
Proof.
  assert (H0 : _current_scopes (self after_begin) !! request_key reqA =
               Some ([] ++ [scope0])%list) by (vm_compute; reflexivity).
  split; [exact H0|].
  destruct (finish_tracing_tags_and_closes reqA (Some (mkResponse 404)) None
              after_begin [] scope0 H0) as (H & _).
  - by repeat split.
  - exact H.
Defined.

Lemma begin_normalizes_headers_witness :
  strip_headers (META reqA) !! "user-agent" = Some "curl".
Proof.
  apply (proj1 (proj2 (proj2
           (begin_normalizes_headers reqA viewFoo [] (fresh None))))
           [] "HTTP_USER_AGENT" "curl" [("REQUEST_METHOD", "GET")]).
  - reflexivity.
  - intros k2 v2 Hin. apply list_elem_of_singleton in Hin as [= -> ->].
    vm_compute. discriminate.
Defined.

Lemma init_checks_start_span_cb_witness :
  is_raise (__init__ (Some ref_tracer) (Some NotCallable)) = true.
Proof.
  apply (proj1 (init_checks_start_span_cb (Some ref_tracer) (Some NotCallable))).
  by exists NotCallable.
Defined.

End Instances.

(* ===================================================================== *)
(** ** Further properties: requests do not interfere *)
(* ===================================================================== *)

Section Isolation.

Lemma run_op_lookup_other o st k :
  request_key (op_request o) ≠ k →
  _current_scopes (self (run_op o st)) !! k = _current_scopes (self st) !! k.
Proof.
  intros Hk. pose proof (run_op_self o st) as H.
  destruct o as [request ? ?|request ? ?]; simpl in Hk.
  - destruct H as [->|(sc & ->)]; [done|].
    unfold pushed. simpl. by rewrite lookup_insert_ne.
  - destruct H as [[-> _]|[-> _]]; [done|].
    unfold popped. simpl. destruct (removelast _).
    + by rewrite lookup_delete_ne.
    + by rewrite lookup_insert_ne.
Qed.

Lemma run_ops_lookup_other ops st k :
  Forall (fun o => request_key (op_request o) ≠ k) ops →
  _current_scopes (self (run_ops ops st)) !! k = _current_scopes (self st) !! k.
Proof.
  revert st. induction ops as [|o ops IH]; intros st Hall; [done|].
  apply Forall_cons in Hall as [Ho Hall]. simpl.
  rewrite IH by done. by apply run_op_lookup_other.
Qed.

(** One call leaves the configuration of the tracker, the globals and the
    span objects as they were. *)
Lemma run_op_config o st :
  _tracer_implementation (self (run_op o st)) = _tracer_implementation (self st) ∧
  _start_span_cb (self (run_op o st)) = _start_span_cb (self st) ∧
  _trace_all (self (run_op o st)) = _trace_all (self st) ∧
  globals (run_op o st) = globals st ∧
  span_ops (run_op o st) = span_ops st.
Proof.
  assert (Hself :
    _tracer_implementation (self (run_op o st)) = _tracer_implementation (self st) ∧
    _start_span_cb (self (run_op o st)) = _start_span_cb (self st) ∧
    _trace_all (self (run_op o st)) = _trace_all (self st)).
  { pose proof (run_op_self o st) as H. destruct o.
    - by destruct H as [->|(sc & ->)].
    - by destruct H as [[-> _]|[-> _]]. }
  destruct Hself as (H1 & H2 & H3). split_and!; try done.
  - destruct o as [request view_func attributes|request response error]; simpl.
    + destruct (_apply_tracing request view_func attributes st) eqn:H.
      by apply apply_tracing_cases in H as (? & _).
    + destruct (_finish_tracing request response error st) eqn:H.
      by apply finish_tracing_cases in H as (? & _).
  - destruct o as [request view_func attributes|request response error]; simpl.
    + destruct (_apply_tracing request view_func attributes st) eqn:H.
      by apply apply_tracing_cases in H as (_ & ? & _).
    + destruct (_finish_tracing request response error st) eqn:H.
      by apply finish_tracing_cases in H as (_ & ? & _).
Qed.

Lemma finish_tracing_absent request response error st :
  _current_scopes (self st) !! request_key request = None →
  _finish_tracing request response error st = (Ok tt, st).
Proof.
  intros Hk. unfold _finish_tracing, try_except.
  rewrite finish_tracing_try_unfold. by rewrite Hk.
Qed.

End Isolation.

(** X1.  End calls on a request that has no entry in [_current_scopes] do
    nothing at all, however many there are and whatever they are given: no
    call is made, nothing is logged, the state is the one they started
    from. *)
Theorem ends_without_entry_do_nothing (request : Request)
    (es : list (option Response * option exn)) (st : State) :
  _current_scopes (self st) !! request_key request = None →
  ends request es st = st.
Proof.
  intros Hk. unfold ends. induction es as [|e es IH]; [done|].
  simpl. by rewrite finish_tracing_absent.
Qed.

(** X2.  A run of begin and end calls none of which is on the request with
    key [k] leaves the entry of [k] in [_current_scopes] as it was, and with
    it what [get_span] returns for that request. *)
Theorem other_requests_are_untouched (ops : list Op) (st : State)
    (request : Request) :
  Forall (fun o => request_key (op_request o) ≠ request_key request) ops →
  _current_scopes (self (run_ops ops st)) !! request_key request =
    _current_scopes (self st) !! request_key request ∧
  get_span (self (run_ops ops st)) request = get_span (self st) request.
Proof.
  intros Hall. pose proof (run_ops_lookup_other ops st _ Hall) as H.
  split; [done|]. unfold get_span. by rewrite H.
Qed.

(** X3.  No run of begin and end calls changes the configuration: the
    tracer implementation, the callback and [_trace_all] of the tracker, the
    global tracer and its one-shot flag are after the run what they were
    before it. *)
Theorem tracing_keeps_configuration (ops : list Op) (st : State) :
  _tracer_implementation (self (run_ops ops st)) =
    _tracer_implementation (self st) ∧
  _start_span_cb (self (run_ops ops st)) = _start_span_cb (self st) ∧
  _trace_all (self (run_ops ops st)) = _trace_all (self st) ∧
  globals (run_ops ops st) = globals st.
Proof.
  revert st. induction ops as [|o ops IH]; intros st; [done|].
  simpl. destruct (IH (run_op o st)) as (-> & -> & -> & ->).
  by destruct (run_op_config o st) as (-> & -> & -> & -> & _).
Qed.

(* ===================================================================== *)
(** ** Further properties: what a matched begin and end leave behind *)
(* ===================================================================== *)

Section RoundTrip.

Lemma begins_run_ops request bs st :
  (begins request bs st).2 = run_ops (begin_ops request bs) st.
Proof.
  revert st. induction bs as [|b bs IH]; intros st; [done|]. simpl.
  destruct (_apply_tracing request b.1 b.2 st) as [r st1] eqn:Hb.
  specialize (IH st1). destruct (begins request bs st1) as [rs st2].
  simpl in *. by rewrite IH.
Qed.

Lemma ends_run_ops request es st :
  ends request es st = run_ops (end_ops request es) st.
Proof.
  unfold ends, run_ops, end_ops. revert st.
  induction es as [|e es IH]; intros st; [done|]. simpl. apply IH.
Qed.

Lemma begins_length request bs st :
  length (begins request bs st).1 = length bs.
Proof.
  revert st. induction bs as [|b bs IH]; intros st; [done|]. simpl.
  destruct (_apply_tracing request b.1 b.2 st) as [r st1].
  specialize (IH st1). destruct (begins request bs st1). simpl in *.
  by rewrite IH.
Qed.

Lemma begin_ops_request request bs k :
  k ≠ request_key request →
  Forall (fun o => request_key (op_request o) ≠ k) (begin_ops request bs).
Proof.
  intros Hk. unfold begin_ops. apply Forall_fmap, Forall_forall.
  intros b _. simpl. congruence.
Qed.

Lemma end_ops_request request es k :
  k ≠ request_key request →
  Forall (fun o => request_key (op_request o) ≠ k) (end_ops request es).
Proof.
  intros Hk. unfold end_ops. apply Forall_fmap, Forall_forall.
  intros e _. simpl. congruence.
Qed.

(** With no empty list in the mapping, the entry of a key is known from its
    stack. *)
Lemma lookup_of_stack this k :
  no_empty_stack this →
  _current_scopes this !! k =
  match stack_of this k with [] => None | l => Some l end.
Proof.
  intros Hinv. unfold stack_of.
  destruct (_current_scopes this !! k) as [l|] eqn:Hk; simpl; [|done].
  destruct l; [|done]. by destruct (Hinv k [] Hk).
Qed.

Lemma popped_pushed request sc this :
  no_empty_stack this →
  _current_scopes (popped request (pushed request sc this)) =
  _current_scopes this.
Proof.
  intros Hinv. unfold popped. rewrite stack_of_pushed, decide_True by done.
  rewrite removelast_last. simpl.
  pose proof (lookup_of_stack this (request_key request) Hinv) as Hk.
  destruct (stack_of this (request_key request)) as [|s0 l].
  - rewrite delete_insert_eq. by apply delete_id.
  - rewrite insert_insert_eq. by apply insert_id.
Qed.

End RoundTrip.

(** X4.  Begin and end undo each other on the mapping: when no key is bound
    to an empty list, [K] begin calls on a request that each return their
    scope, followed by [K] end calls on it, leave [_current_scopes] exactly
    as it was before the first begin. *)
Theorem begins_then_ends_restore_scopes (request : Request)
    (bs : list (ViewFunc * list string))
    (es : list (option Response * option exn)) (scs : list Scope)
    (st : State) :
  no_empty_stack (self st) →
  (begins request bs st).1 = Some <$> scs →
  length es = length bs →
  _current_scopes (self (ends request es (begins request bs st).2)) =
  _current_scopes (self st).
Proof.
  intros Hinv Hopen Hlen.
  assert (Hscs : length scs = length bs).
  { by rewrite <- (begins_length request bs st), Hopen, length_fmap. }
  set (st2 := ends request es (begins request bs st).2).
  assert (Hinv2 : no_empty_stack (self st2)).
  { subst st2. rewrite ends_run_ops, begins_run_ops.
    by do 2 apply run_ops_no_empty_stack. }
  apply map_eq. intros i.
  destruct (decide (i = request_key request)) as [->|Hne].
  - rewrite (lookup_of_stack _ _ Hinv2), (lookup_of_stack _ _ Hinv).
    subst st2. rewrite ends_stack, (begins_stack _ _ _ _ Hopen).
    rewrite length_app, take_app_ge by lia.
    replace (_ - _)%nat with 0%nat by lia.
    by rewrite take_0, app_nil_r.
  - subst st2. rewrite ends_run_ops, begins_run_ops.
    rewrite run_ops_lookup_other by (by apply end_ops_request).
    by rewrite run_ops_lookup_other by (by apply begin_ops_request).
Qed.

(** X5.  What [get_span] returns right after a begin call that returns its
    scope: the span of that scope when the request had no scope before, and
    what it returned before the call otherwise. *)
Theorem get_span_after_begin (request : Request) (view_func : ViewFunc)
    (attributes : list string) (sc : Scope) (st : State) :
  (_apply_tracing request view_func attributes st).1 = Ok (Some sc) →
  get_span (self (_apply_tracing request view_func attributes st).2) request =
  match get_span (self st) request with
  | Some sp => Some sp
  | None => Some (span sc)
  end.
Proof.
  destruct (_apply_tracing request view_func attributes st) as [r st'] eqn:H.
  simpl. intros ->.
  apply apply_tracing_some in H as (Hs & _).
  rewrite Hs. unfold get_span, pushed, stack_of. simpl.
  rewrite lookup_insert_eq.
  by destruct (_current_scopes (self st) !! request_key request) as [[|s0 l]|].
Qed.

(* ===================================================================== *)
(** ** Further properties: the wrapper as a whole *)
(* ===================================================================== *)

Section Wrapper.

Lemma after_end_state {A} (ended : res unit * State) (outcome : res A) :
  (after_end ended outcome).2 = ended.2.
Proof. by destruct ended as [[u|e] st]. Qed.

(** The state the instrumenting branch of the wrapper ends in, when begin
    returns and the view function returns or raises an [Exception]. *)
Lemma trace_instrumented_state view attributes view_func request st o st1 :
  _trace_all (self st) && view = false →
  _apply_tracing request view_func attributes st = (Ok o, st1) →
  (∀ exc, (call_view view_func request st1).1 = Raise exc →
          is_Exception exc = true) →
  (trace view attributes view_func request st).2 =
  match call_view view_func request st1 with
  | (Ok r, st2) => (_finish_tracing request r None st2).2
  | (Raise exc, st2) => (_finish_tracing request None (Some exc) st2).2
  end.
Proof.
  intros Hoff Hb Hexc. rewrite trace_unfold, Hoff, Hb.
  destruct (call_view view_func request st1) as [[r|exc] st2].
  - apply after_end_state.
  - rewrite (Hexc exc eq_refl). apply after_end_state.
Qed.

(** Begin on a callable without [__name__]: one log line, nothing else. *)
Lemma apply_tracing_without_name request view_func attributes st :
  __name__ view_func = None →
  _apply_tracing request view_func attributes st =
  (Ok None,
   with_logged
     "Exception during apply tracing: object has no attribute '__name__'" st).
Proof.
  intros Hn. unfold _apply_tracing.
  rewrite try_except_str_cases, apply_tracing_try_unfold.
  unfold bind at 1, view_name. by rewrite Hn.
Qed.

End Wrapper.

(** X6.  A traced call leaves no scope behind.  When the wrapper
    instruments (not both [_trace_all] and [view]), its begin returns a
    scope, and the view function hands the tracker back as it got it and
    either returns or raises an instance of [Exception], then
    [_current_scopes] is after the wrapper what it was before. *)
Theorem traced_call_leaves_no_scope (view : bool) (attributes : list string)
    (view_func : ViewFunc) (request : Request) (sc : Scope) (st : State) :
  let out := call_view view_func request
               (_apply_tracing request view_func attributes st).2 in
  _trace_all (self st) && view = false →
  no_empty_stack (self st) →
  (_apply_tracing request view_func attributes st).1 = Ok (Some sc) →
  self out.2 = self (_apply_tracing request view_func attributes st).2 →
  (∀ exc, out.1 = Raise exc → is_Exception exc = true) →
  _current_scopes (self (trace view attributes view_func request st).2) =
  _current_scopes (self st).
Proof.
  intros out Hoff Hinv Hb Hview Hexc. subst out.
  destruct (_apply_tracing request view_func attributes st) as [r st1] eqn:H.
  simpl in *. subst r.
  rewrite (trace_instrumented_state _ _ _ _ _ _ _ Hoff H Hexc).
  apply apply_tracing_some in H as (Hs & _).
  assert (Hend : ∀ response error st2, self st2 = self st1 →
            _current_scopes (self (_finish_tracing request response error st2).2)
            = _current_scopes (self st)).
  { intros response error st2 H2.
    pose proof (run_op_self (End request response error) st2) as [[_ He]|[Hp _]].
    - rewrite H2, Hs, stack_of_pushed, decide_True in He by done.
      by destruct (stack_of (self st) (request_key request)).
    - simpl in Hp. rewrite Hp, H2, Hs. by apply popped_pushed. }
  destruct (call_view view_func request st1) as [[r|exc] st2];
    simpl in Hview; by apply Hend.
Qed.

(** X7.  The wrapper runs its end call whether or not its begin recorded a
    scope.  Around a callable without [__name__], begin records nothing, and
    the end call of the wrapper takes the last scope the request already had:
    if the view function hands the tracker back as it got it, and returns or
    raises an instance of [Exception], the stack of the request is one scope
    shorter after the wrapper than before it. *)
Theorem traced_call_without_name_pops_enclosing_scope (view : bool)
    (attributes : list string) (view_func : ViewFunc) (request : Request)
    (st : State) :
  let out := call_view view_func request
               (_apply_tracing request view_func attributes st).2 in
  _trace_all (self st) && view = false →
  __name__ view_func = None →
  self out.2 = self (_apply_tracing request view_func attributes st).2 →
  (∀ exc, out.1 = Raise exc → is_Exception exc = true) →
  stack_of (self (trace view attributes view_func request st).2)
    (request_key request) =
  removelast (stack_of (self st) (request_key request)).
Proof.
  intros out Hoff Hn Hview Hexc. subst out.
  pose proof (apply_tracing_without_name request view_func attributes st Hn)
    as Hb.
  rewrite Hb in Hview, Hexc. simpl in Hview, Hexc.
  rewrite (trace_instrumented_state _ _ _ _ _ _ _ Hoff Hb Hexc).
  destruct (call_view view_func request _) as [[r|exc] st2];
    simpl in Hview; rewrite finish_tracing_stack, decide_True by done;
    by rewrite Hview.
Qed.

(* ===================================================================== *)
(** ** Further properties: the calls begin makes *)
(* ===================================================================== *)

Section BeginCalls.

Lemma adds_only_ret P {A} (a : A) : adds_only P (ret a).
Proof. intros st. exists []. by rewrite app_nil_r. Qed.

Lemma adds_only_bind P {A B} (c : M A) (k : A → M B) :
  adds_only P c → (∀ a, adds_only P (k a)) → adds_only P (bind c k).
Proof.
  intros Hc Hk st. unfold bind. destruct (Hc st) as (cs1 & H1 & HP1).
  destruct (c st) as [[a|e] st1]; simpl in *; [|eauto].
  destruct (Hk a st1) as (cs2 & H2 & HP2).
  exists (cs1 ++ cs2)%list. rewrite H2, H1, app_assoc.
  split; [done|]. by apply Forall_app.
Qed.

Lemma adds_only_for_each P {A} (xs : list A) (body : A → M unit) :
  (∀ x, adds_only P (body x)) → adds_only P (for_each xs body).
Proof.
  intros Hb. induction xs as [|x xs IH]; simpl.
  - apply adds_only_ret.
  - apply adds_only_bind; [apply Hb|done].
Qed.

Lemma adds_only_set_tag (P : Call → Prop) sp k v :
  P (CSetTag sp k v) → adds_only P (span_set_tag sp k v).
Proof. intros HP st. exists [CSetTag sp k v]. split; [done|]. by constructor. Qed.

(** The calls of the callback wrapper, whatever the callback answers. *)
Lemma call_start_span_cb_calls sp request st :
  calls (_call_start_span_cb sp request st).2 =
  (calls st ++ callback_calls (self st) sp request)%list.
Proof.
  unfold _call_start_span_cb, callback_calls, try_except, Exception.
  destruct (_start_span_cb (self st)) as [[f|]|]; simpl;
    try by rewrite app_nil_r.
  destruct (f (calls st) sp request) as [[]|e]; [done|].
  by destruct (is_Exception e).
Qed.

Lemma tag_new_span_adds request scope attributes :
  adds_only (fun c => is_tracer_call c = false)
    (tag_new_span request scope attributes).
Proof.
  unfold tag_new_span.
  do 4 (apply adds_only_bind; [by apply adds_only_set_tag|intros _]).
  apply adds_only_bind.
  - apply adds_only_for_each. intros attr.
    destruct (getattr_str request attr) as [payload|];
      [|apply adds_only_ret].
    destruct (String.eqb payload "");
      [apply adds_only_ret|by apply adds_only_set_tag].
  - intros _. apply adds_only_bind; [|intros _; apply adds_only_ret].
    intros st. rewrite call_start_span_cb_calls. eexists. split; [done|].
    unfold callback_calls.
    destruct (_start_span_cb (self st)) as [[f|]|]; by repeat constructor.
Qed.

(** The calls of the attribute loop when it completes. *)
Lemma for_each_attribute_tags request scope attributes st u st' :
  for_each attributes (fun attr =>
    match getattr_str request attr with
    | Some payload =>
        if String.eqb payload "" then ret tt
        else span_set_tag (span scope) attr (VStr payload)
    | None => ret tt
    end) st = (Ok u, st') →
  self st' = self st ∧
  calls st' = (calls st ++ attribute_tags request (span scope) attributes)%list.
Proof.
  revert st. induction attributes as [|attr attributes IH]; intros st; simpl.
  - intros [= _ <-]. by rewrite app_nil_r.
  - intros H. apply bind_ok_inv in H as ([] & st1 & Hbody & Hrest).
    apply IH in Hrest as (Hs & Hc). rewrite Hs, Hc.
    unfold attribute_tags. simpl.
    destruct (getattr_str request attr) as [payload|].
    + destruct (String.eqb payload "").
      * by injection Hbody as <-.
      * unfold span_set_tag in Hbody. injection Hbody as _ <-. simpl.
        by rewrite <- app_assoc.
    + by injection Hbody as <-.
Qed.

Lemma set_tag_ok_inv sp k v st u st' :
  span_set_tag sp k v st = (Ok u, st') →
  self st' = self st ∧ calls st' = (calls st ++ [CSetTag sp k v])%list.
Proof. unfold span_set_tag. by intros [= _ <-]. Qed.

(** The calls of everything after the push, when it completes. *)
Lemma tag_new_span_ok_calls request scope attributes st o st' :
  tag_new_span request scope attributes st = (Ok o, st') →
  calls st' =
  (calls st ++ begin_tags request (span scope) attributes ++
   callback_calls (self st) (span scope) request)%list.
Proof.
  unfold tag_new_span. intros H.
  apply bind_ok_inv in H as (? & s1 & H1 & H).
  apply bind_ok_inv in H as (? & s2 & H2 & H).
  apply bind_ok_inv in H as (? & s3 & H3 & H).
  apply bind_ok_inv in H as (? & s4 & H4 & H).
  apply bind_ok_inv in H as (? & s5 & H5 & H).
  apply bind_ok_inv in H as (? & s6 & H6 & H).
  injection H as _ <-.
  apply set_tag_ok_inv in H1 as (Hs1 & Hc1), H2 as (Hs2 & Hc2),
    H3 as (Hs3 & Hc3), H4 as (Hs4 & Hc4).
  apply for_each_attribute_tags in H5 as (Hs5 & Hc5).
  pose proof (call_start_span_cb_calls (span scope) request s5) as Hc6.
  rewrite H6 in Hc6. simpl in Hc6.
  rewrite Hc6, Hc5, Hc4, Hc3, Hc2, Hc1, Hs5, Hs4, Hs3, Hs2, Hs1.
  unfold begin_tags. simpl. by rewrite <- !app_assoc.
Qed.

(** The inner [try] statement talks to the tracer only. *)
Lemma start_span_adds h n :
  adds_only (fun c => is_tracer_call c = true)
    (start_span_from_trace_info h n).
Proof.
  intros st.
  unfold start_span_from_trace_info, try_except, bind, tracer_extract,
    tracer_start_active_span, tracer_inject, ret.
  repeat match goal with
         | |- context [extract ?t ?c ?a] => destruct (extract t c a); simpl
         | |- context [start_active_span ?t ?c ?a ?b] =>
             destruct (start_active_span t c a b); simpl
         | |- context [inject ?t ?c ?a ?b] =>
             destruct (inject t c a b); simpl
         | |- context [carrier_errors ?e] => destruct (carrier_errors e); simpl
         end;
    rewrite <- ?app_assoc; simpl; eexists; (split; [reflexivity|]);
    by repeat constructor.
Qed.

(** A begin that returns a scope went through every stretch of its [try]
    suite. *)
Lemma apply_tracing_some_inv request view_func attributes st sc st' :
  _apply_tracing request view_func attributes st = (Ok (Some sc), st') →
  ∃ n st1,
    __name__ view_func = Some n ∧
    start_span_from_trace_info (strip_headers (META request)) n st =
      (Ok sc, st1) ∧
    tag_new_span request sc attributes (push_scope request sc st1).2 =
      (Ok (Some sc), st').
Proof.
  assert (Hno : ∀ (e : exn) (s : State),
            (if is_Exception e
             then match str_of e with
                  | Ok msg =>
                      (logging_error ("Exception during apply tracing: " ++ msg)
                       ;; ret None) s
                  | Raise e' => (Raise e', s)
                  end
             else (Raise e, s)) ≠ (Ok (Some sc), st')).
  { intros e s. destruct (is_Exception e); [|done]. by destruct (str_of e). }
  unfold _apply_tracing. rewrite try_except_str_cases.
  rewrite apply_tracing_try_unfold. unfold bind at 1, view_name.
  destruct (__name__ view_func) as [n|]; simpl; [|done].
  unfold bind at 1.
  destruct (start_span_from_trace_info _ n st) as [[sc0|e] st1] eqn:Hstart;
    [|intros H; by apply Hno in H].
  unfold bind at 1. unfold push_scope at 1. cbv beta iota zeta.
  match goal with |- context [tag_new_span _ _ _ ?s] => set (st2 := s) end.
  destruct (tag_new_span request sc0 attributes st2) as [[o|e] st3] eqn:Htag;
    [|intros H; by apply Hno in H].
  intros [= -> <-].
  pose proof (tag_new_span_value _ _ _ _ _ _ Htag) as [= ->].
  exists n, st1. by split_and!.
Qed.

End BeginCalls.

(** X8.  The calls of a begin that returns its scope [sc]: first calls on
    the tracer only, then on the span of [sc] the tags [component=django],
    [span.kind=server], [http.method], [http.url], then one tag per requested
    attribute that the request has and whose string is not empty, in the
    order asked for, then the callback if one is configured, and nothing
    else. *)
Theorem begin_tags_the_new_span (request : Request) (view_func : ViewFunc)
    (attributes : list string) (sc : Scope) (st : State) :
  (_apply_tracing request view_func attributes st).1 = Ok (Some sc) →
  ∃ pre,
    Forall (fun c => is_tracer_call c = true) pre ∧
    calls (_apply_tracing request view_func attributes st).2 =
    (calls st ++ pre ++ begin_tags request (span sc) attributes ++
     callback_calls (self st) (span sc) request)%list.
Proof.
  destruct (_apply_tracing request view_func attributes st) as [r st'] eqn:H.
  simpl. intros ->.
  apply apply_tracing_some_inv in H as (n & st1 & Hn & Hstart & Htag).
  destruct (start_span_adds (strip_headers (META request)) n st)
    as (pre & Hpre & HP).
  pose proof (external_start_span (strip_headers (META request)) n st)
    as (Hs1 & _).
  rewrite Hstart in Hpre, Hs1. simpl in Hpre, Hs1.
  apply tag_new_span_ok_calls in Htag. simpl in Htag.
  exists pre. split; [done|].
  rewrite Htag, Hpre, Hs1. by rewrite <- !app_assoc.
Qed.

(** X9.  The ordinary path of begin.  When the view function has a name,
    [extract] returns a context and [start_active_span] returns a scope,
    begin has started exactly one span, named after the view function and
    with the extracted context as parent, has made no other call on the
    tracer (nothing is injected), and has recorded the scope for the request,
    whether or not the tagging that follows succeeds. *)
Theorem begin_uses_extracted_context (request : Request)
    (view_func : ViewFunc) (attributes : list string) (n : string)
    (ctx : SpanContext) (sc : Scope) (st : State) :
  let h := strip_headers (META request) in
  __name__ view_func = Some n →
  extract (tracer st) (calls st) h = Ok ctx →
  start_active_span (tracer st) (calls st ++ [CExtract h])%list n (Some ctx)
    = Ok sc →
  let st' := (_apply_tracing request view_func attributes st).2 in
  self st' = pushed request sc (self st) ∧
  ∃ cs, calls st' =
        (calls st ++ [CExtract h; CStartActiveSpan n (Some ctx)] ++ cs)%list ∧
        Forall (fun c => is_tracer_call c = false) cs.
Proof.
  intros h Hn Hex Hstart st'.
  assert (Hspan :
    start_span_from_trace_info h n st =
    (Ok sc, with_call (CStartActiveSpan n (Some ctx))
              (with_call (CExtract h) st))).
  { unfold start_span_from_trace_info, try_except, bind, tracer_extract,
      tracer_start_active_span.
    rewrite Hex. simpl.
    change (tracer (with_call (CExtract h) st)) with (tracer st).
    by rewrite Hstart. }
  subst st'.
  destruct (apply_tracing_frame request view_func attributes st) as (-> & ->).
  destruct (_apply_tracing_try request view_func attributes st)
    as [r st'] eqn:H.
  simpl. revert H.
  rewrite apply_tracing_try_unfold. unfold bind at 1, view_name. rewrite Hn.
  simpl. unfold bind at 1. fold h. rewrite Hspan.
  unfold bind at 1, push_scope at 1. cbv beta iota zeta.
  match goal with |- context [tag_new_span _ _ _ ?s] => set (st2 := s) end.
  destruct (external_tag_new_span request sc attributes st2) as (Hs & _).
  destruct (tag_new_span_adds request sc attributes st2) as (cs & Hc & HP).
  destruct (tag_new_span request sc attributes st2) as [[o|e] st3];
    simpl in *; intros [= <- <-]; simpl;
    (split; [by rewrite Hs|]);
    exists cs; (split; [|done]); rewrite Hc; subst st2; simpl;
    by rewrite <- !app_assoc.
Qed.

Section EndCalls.

(** The calls after the pop are a beginning of the calls described for end,
    and all of them when no call raises. *)
Lemma record_outcome_prefix scope response error st :
  ∃ cs, calls (record_outcome scope response error st).2 =
          (calls st ++ cs)%list ∧
        cs `prefix_of` spec_end_calls scope response error ∧
        ((record_outcome scope response error st).1 = Ok tt →
         cs = spec_end_calls scope response error).
Proof.
  unfold record_outcome, spec_end_calls, bind, span_set_tag, span_log_kv,
    scope_close, ret.
  destruct error as [e|], response as [r|]; simpl;
    repeat match goal with
           | |- context [set_tag ?o ?c ?a ?b ?d] =>
               destruct (set_tag o c a b d) as [[]|?]; simpl
           | |- context [log_kv ?o ?c ?a ?b] =>
               destruct (log_kv o c a b) as [[]|?]; simpl
           | |- context [close ?o ?c ?a] =>
               destruct (close o c a) as [[]|?]; simpl
           end;
    rewrite <- ?app_assoc; simpl;
    eexists; (split; [reflexivity|]);
    (split; [by eexists|done]).
Qed.

End EndCalls.

(** X10.  The calls of an end call that takes [sc] off the stack are a
    beginning of the sequence "error tag, error log, status-code tag, close"
    on [sc] (each present as [error] and [response] are given): end makes no
    call on the tracer or on any other span or scope, and closes at most the
    scope it took.  It has made the whole sequence, each call returning, when
    it returns without raising and has logged nothing; an end that raises (a
    span method raised an object that is no [Exception], or one whose
    [str()] raises) has logged nothing either. *)
Theorem end_calls_only_on_popped_scope (request : Request)
    (response : option Response) (error : option exn) (st : State)
    (l : list Scope) (sc : Scope) :
  _current_scopes (self st) !! request_key request = Some (l ++ [sc])%list →
  let out := _finish_tracing request response error st in
  ∃ cs, calls out.2 = (calls st ++ cs)%list ∧
        cs `prefix_of` spec_end_calls sc response error ∧
        (out.1 = Ok tt → logged out.2 = logged st →
         cs = spec_end_calls sc response error) ∧
        (is_raise out.1 = true → logged out.2 = logged st).
Proof.
  intros Hk out.
  destruct (pop_then_free request st l sc Hk)
    as (st1 & Hpop & st2 & Hfree & _ & _ & _ & Hlog & Hc).
  destruct (record_outcome_prefix sc response error st2)
    as (cs & Hcs & Hpre & Hall).
  pose proof (external_record_outcome sc response error st2)
    as (_ & _ & _ & Hlog3 & _).
  subst out.
  destruct (_finish_tracing request response error st) as [r st'] eqn:H.
  simpl. revert H. unfold _finish_tracing. rewrite try_except_str_cases.
  rewrite finish_tracing_try_unfold, Hk.
  unfold bind at 1. rewrite Hpop. unfold bind at 1. rewrite Hfree.
  destruct (record_outcome sc response error st2) as [[[]|e] st3];
    simpl in *.
  - intros [= <- <-]. exists cs. rewrite Hcs, Hc. split_and!; try done.
    intros _ _. by apply Hall.
  - destruct (is_Exception e); [destruct (str_of e) as [msg|e']|].
    + unfold bind, logging_error, ret. intros [= <- <-]. simpl.
      exists cs. rewrite Hcs, Hc. split_and!; try done.
      intros _. rewrite Hlog3, Hlog. intros Hbad.
      apply (f_equal length) in Hbad. rewrite length_app in Hbad.
      simpl in Hbad. lia.
    + intros [= <- <-]. exists cs. rewrite Hcs, Hc, Hlog3, Hlog.
      by split_and!.
    + intros [= <- <-]. exists cs. rewrite Hcs, Hc, Hlog3, Hlog.
      by split_and!.
Qed.

(* ===================================================================== *)
(** ** Further properties: the carrier *)
(* ===================================================================== *)

Section Carrier.

Lemma chars_str_map f s : chars (str_map f s) = f <$> chars s.
Proof. induction s as [|c s IH]; [done|]. simpl. by rewrite IH. Qed.

Lemma chars_slice_from n s : chars (slice_from n s) = drop n (chars s).
Proof.
  revert s. induction n as [|n IH]; intros s; [done|].
  destruct s as [|c s]; [done|]. simpl. apply IH.
Qed.

Lemma spec_key_char_normal c :
  is_upper (spec_key_char c) = false ∧ spec_key_char c ≠ "_"%char.
Proof. destruct c as [[] [] [] [] [] [] [] []]; by vm_compute. Qed.

Lemma normalize_key_chars k :
  Forall (fun c => is_upper c = false ∧ c ≠ "_"%char) (chars (normalize_key k)).
Proof.
  unfold normalize_key. rewrite replace_lower.
  assert (H : Forall (fun c => is_upper c = false ∧ c ≠ "_"%char)
                (chars (str_map spec_key_char k))).
  { rewrite chars_str_map. apply Forall_fmap, Forall_forall.
    intros c _. apply spec_key_char_normal. }
  destruct (startswith "http-" (str_map spec_key_char k)); [|done].
  rewrite chars_slice_from. by apply Forall_drop.
Qed.

Lemma str_map_app f s t :
  str_map f (s ++ t) = (str_map f s ++ str_map f t)%string.
Proof. induction s as [|c s IH]; [done|]. simpl. by rewrite IH. Qed.

(** The loop as a right fold over the reversed items. *)
Lemma strip_headers_list_to_map meta :
  strip_headers meta =
  list_to_map (reverse ((fun kv => (normalize_key kv.1, kv.2)) <$> meta)).
Proof.
  unfold strip_headers.
  induction meta as [|kv meta IH] using rev_ind; [done|].
  rewrite foldl_app, fmap_app, reverse_app. simpl. by rewrite IH.
Qed.

End Carrier.

(** X11.  No key of the carrier built from [request.META] contains an
    upper-case ASCII letter or an underscore. *)
Theorem carrier_keys_are_lower_case_hyphenated (meta : list (string * string))
    (k : string) (v : string) :
  strip_headers meta !! k = Some v →
  Forall (fun c => is_upper c = false ∧ c ≠ "_"%char) (chars k).
Proof.
  intros H. apply (fill_headers_origin _ ∅) in H as [H|(k0 & _ & <-)].
  - by rewrite lookup_empty in H.
  - apply normalize_key_chars.
Qed.

(** X12.  The key of a WSGI header item: for [HTTP_] followed by any name,
    the carrier key is the name, lower-cased and with hyphens for
    underscores.  The prefix is dropped once only: a name that itself begins
    with [HTTP_] keeps its own "http-". *)
Theorem wsgi_header_key (name : string) :
  normalize_key ("HTTP_" ++ name) = str_map spec_key_char name ∧
  normalize_key ("HTTP_HTTP_" ++ name) =
    ("http-" ++ str_map spec_key_char name)%string.
Proof.
  unfold normalize_key. rewrite !replace_lower.
  rewrite (str_map_app _ "HTTP_"), (str_map_app _ "HTTP_HTTP_"). done.
Qed.

(** X13.  The carrier never has more entries than [request.META] has
    items; and when no two items have the same normalized key, it has as
    many, each item being found under its normalized key with its value. *)
Theorem carrier_size (meta : list (string * string)) :
  (size (strip_headers meta) ≤ length meta)%nat ∧
  (NoDup (normalize_key <$> meta.*1) →
   size (strip_headers meta) = length meta ∧
   ∀ k v, (k, v) ∈ meta → strip_headers meta !! normalize_key k = Some v).
Proof.
  split.
  - unfold strip_headers.
    induction meta as [|kv meta IH] using rev_ind; [done|].
    rewrite foldl_app, length_app. simpl.
    set (m := foldl _ ∅ meta) in *.
    destruct (m !! normalize_key kv.1) as [x|] eqn:Hx.
    + rewrite map_size_insert_Some by (by rewrite Hx). lia.
    + rewrite map_size_insert_None by done. lia.
  - intros Hnd. rewrite strip_headers_list_to_map.
    set (items := (fun kv => (normalize_key kv.1, kv.2)) <$> meta).
    assert (Hkeys : NoDup (reverse items).*1).
    { rewrite fmap_reverse, reverse_Permutation. subst items.
      rewrite <- list_fmap_compose.
      by rewrite <- list_fmap_compose in Hnd. }
    split.
    + rewrite <- length_map_to_list, map_to_list_to_map by done.
      subst items. by rewrite length_reverse, length_fmap.
    + intros k v Hin. apply elem_of_list_to_map; [done|].
      apply elem_of_reverse. subst items.
      apply (list_elem_of_fmap_2 (fun kv => (normalize_key kv.1, kv.2))) in Hin.
      done.
Qed.

(** X14.  What a traced call records.  When the wrapper instruments, its
    begin returns the scope [sc], the view function hands back the tracker
    and the span objects as it got them, and the span methods return, the
    wrapper has the outcome of the view function, and after the calls of the
    view function it makes exactly these: for a returned response the
    status-code tag and the close of [sc]; for a returned [None] the close
    alone; for a raised instance of [Exception] the error tag, the error log
    and the close; for a raised object that is no [Exception] no call at
    all, [sc] staying open. *)
Theorem traced_call_records_outcome (view : bool) (attributes : list string)
    (view_func : ViewFunc) (request : Request) (sc : Scope) (st : State) :
  let st1 := (_apply_tracing request view_func attributes st).2 in
  let out := call_view view_func request st1 in
  _trace_all (self st) && view = false →
  (_apply_tracing request view_func attributes st).1 = Ok (Some sc) →
  self out.2 = self st1 →
  span_ops out.2 = span_ops st1 →
  span_ops_return (span_ops st) →
  (trace view attributes view_func request st).1 = out.1 ∧
  calls (trace view attributes view_func request st).2 =
    (calls out.2 ++
     match out.1 with
     | Ok r => spec_end_calls sc r None
     | Raise exc =>
         if is_Exception exc then spec_end_calls sc None (Some exc) else []
     end)%list.
Proof.
  intros st1 out Hoff Hb Hself Hops Hret. subst out st1.
  rewrite trace_unfold, Hoff.
  destruct (_apply_tracing request view_func attributes st) as [r0 s1] eqn:H.
  simpl in *. subst r0.
  pose proof (apply_tracing_cases _ _ _ _ _ _ H) as (_ & Ho & _).
  apply apply_tracing_some in H as (Hs & _).
  destruct (call_view view_func request s1) as [[r|exc] st2]; simpl in *.
  - assert (Hk : _current_scopes (self st2) !! request_key request =
                 Some (stack_of (self st) (request_key request) ++ [sc])%list).
    { rewrite Hself, Hs. unfold pushed. simpl. apply lookup_insert_eq. }
    assert (Hret2 : span_ops_return (span_ops st2)) by by rewrite Hops, Ho.
    destruct (finish_tracing_returns request r None st2 _ sc Hk Hret2)
      as (st3 & -> & _ & _ & _ & _ & Hc). by simpl.
  - destruct (is_Exception exc); [|by rewrite app_nil_r].
    assert (Hk : _current_scopes (self st2) !! request_key request =
                 Some (stack_of (self st) (request_key request) ++ [sc])%list).
    { rewrite Hself, Hs. unfold pushed. simpl. apply lookup_insert_eq. }
    assert (Hret2 : span_ops_return (span_ops st2)) by by rewrite Hops, Ho.
    destruct (finish_tracing_returns request None (Some exc) st2 _ sc Hk Hret2)
      as (st3 & -> & _ & _ & _ & _ & Hc). by simpl.
Qed.

(* ===================================================================== *)
(** ** The further properties at concrete inputs *)
(* ===================================================================== *)

Section MoreInstances.

Import RefTracer.

Lemma fresh_no_empty_stack : no_empty_stack (self (fresh None)).
Proof. intros k l. simpl. by rewrite lookup_empty. Defined.

Lemma ends_without_entry_do_nothing_witness :
  ends reqA two_ends (fresh None) = fresh None.
Proof.
  apply (ends_without_entry_do_nothing reqA two_ends (fresh None)).
  reflexivity.
Defined.

Lemma other_requests_are_untouched_witness :
  get_span
    (self (run_ops [Begin reqB viewFoo []; End reqB None None] after_begin))
    reqA = get_span (self after_begin) reqA.
Proof.
  apply (other_requests_are_untouched
           [Begin reqB viewFoo []; End reqB None None] after_begin reqA).
  repeat constructor; simpl; lia.
Defined.

Lemma begins_then_ends_restore_scopes_witness :
  _current_scopes
    (self (ends reqA two_ends (begins reqA two_begins (fresh None)).2)) = ∅.
Proof.
  apply (begins_then_ends_restore_scopes reqA two_begins two_ends
           [scope0; scope1] (fresh None)).
  - exact fresh_no_empty_stack.
  - vm_compute. reflexivity.
  - reflexivity.
Defined.

Lemma get_span_after_begin_witness :
  get_span (self (_apply_tracing reqA viewFoo [] (fresh None)).2) reqA =
  Some (span scope0).
Proof.
  apply (get_span_after_begin reqA viewFoo [] scope0 (fresh None)).
  vm_compute. reflexivity.
Defined.

Lemma traced_call_leaves_no_scope_witness :
  _current_scopes (self (trace true [] viewBoom reqA (fresh None)).2) = ∅.
Proof.
  apply (traced_call_leaves_no_scope true [] viewBoom reqA scope0 (fresh None)).
  - reflexivity.
  - exact fresh_no_empty_stack.
  - vm_compute. reflexivity.
  - reflexivity.
  - intros exc. vm_compute. intros [= <-]. reflexivity.
Defined.

Lemma traced_call_without_name_pops_enclosing_scope_witness :
  stack_of (self after_begin) (request_key reqA) = [scope0] ∧
  stack_of (self (trace true [] partialView reqA after_begin).2)
    (request_key reqA) =
  removelast (stack_of (self after_begin) (request_key reqA)).
Proof.
  split; [vm_compute; reflexivity|].
  apply (traced_call_without_name_pops_enclosing_scope true [] partialView
           reqA after_begin); try reflexivity.
  intros exc. vm_compute. intros [=].
Defined.

Lemma begin_tags_the_new_span_witness :
  ∃ pre,
    Forall (fun c => is_tracer_call c = true) pre ∧
    calls (_apply_tracing reqA viewFoo ["user_id"; "empty"; "nope"]
             (fresh None)).2 =
    ([] ++ pre ++
     begin_tags reqA (span scope0) ["user_id"; "empty"; "nope"] ++ [])%list.
Proof.
  apply (begin_tags_the_new_span reqA viewFoo ["user_id"; "empty"; "nope"]
           scope0 (fresh None)).
  vm_compute. reflexivity.
Defined.

Lemma begin_uses_extracted_context_witness :
  self (_apply_tracing reqB viewFoo [] (fresh None)).2 =
  pushed reqB scope0 (self (fresh None)).
Proof.
  apply (begin_uses_extracted_context reqB viewFoo [] "viewFoo"
           (mkSpanContext "ab" "cd") scope0 (fresh None));
    vm_compute; reflexivity.
Defined.

Lemma end_calls_only_on_popped_scope_witness :
  let out := _finish_tracing reqA (Some (mkResponse 404)) None after_begin in
  ∃ cs,
    calls out.2 = (calls after_begin ++ cs)%list ∧
    cs `prefix_of` spec_end_calls scope0 (Some (mkResponse 404)) None ∧
    (out.1 = Ok tt → logged out.2 = logged after_begin →
     cs = spec_end_calls scope0 (Some (mkResponse 404)) None) ∧
    (is_raise out.1 = true → logged out.2 = logged after_begin).
Proof.
  apply (end_calls_only_on_popped_scope reqA (Some (mkResponse 404)) None
           after_begin [] scope0).
  vm_compute. reflexivity.
Defined.

Lemma carrier_keys_are_lower_case_hyphenated_witness :
  Forall (fun c => is_upper c = false ∧ c ≠ "_"%char) (chars "user-agent").
Proof.
  apply (carrier_keys_are_lower_case_hyphenated (META reqA) "user-agent"
           "curl").
  vm_compute. reflexivity.
Defined.

Lemma carrier_size_witness :
  size (strip_headers (META reqA)) = length (META reqA).
Proof.
  apply (proj2 (carrier_size (META reqA))).
  apply (bool_decide_unpack _). vm_compute. exact I.
Defined.

Lemma traced_call_records_outcome_witness :
  (trace true [] viewBoom reqA (fresh None)).1 =
    Raise (Exc (OtherException "Http404") "not found") ∧
  last (calls (trace true [] viewBoom reqA (fresh None)).2) =
    Some (CClose scope0).
Proof.
  destruct (traced_call_records_outcome true [] viewBoom reqA scope0
              (fresh None)) as [H1 H2].
  - reflexivity.
  - vm_compute. reflexivity.
  - reflexivity.
  - reflexivity.
  - by repeat split.
  - split; [exact H1|]. rewrite H2. vm_compute. reflexivity.
Defined.

End MoreInstances.
